(** * Pit-lane speed controller: a model of [simulacion.py]

    The class [SistemaControlMotor] of [src/simulacion.py] is embedded as a
    record of attributes and one Rocq function per method.  Python floats
    are read as exact rationals ([Q]): every literal of the source is the
    rational it denotes ([0.1] is [1/10]), and rounding is not modelled.
    A division by zero has two outcomes, as in the source: between Python
    numbers it raises [ZeroDivisionError]; when an operand is a NumPy scalar
    (a result of [np.clip]) the source warns and goes on with [inf] or
    [nan], values the rationals do not have, and the model follows it no
    further.  The plotting code ([animar], [main]) and the console output
    of [log_valores] write no attribute and are left out, but for the test
    that calls [log_valores], its marker test and the horizontal axis
    limits of [animar]. *)

From Stdlib Require Import QArith Qminmax Qabs Qfield Lqa.
From Stdlib Require Import List Bool Lia PeanoNat ZArith.
Import ListNotations.

Open Scope Q_scope.

(** ** Results of fallible computations *)

Module Resultado.

Inductive excepcion : Type :=
| ZeroDivisionError.

(** [Ok a]: the value.  [Error e]: the source raises [e].  [NoFinito]: the
    source has divided a NumPy scalar by zero; it goes on with [inf] or
    [nan] and raises nothing, but its values are no longer rationals. *)
Inductive resultado (A : Type) : Type :=
| Ok (a : A)
| Error (e : excepcion)
| NoFinito.

Arguments Ok {A} a.
Arguments Error {A} e.
Arguments NoFinito {A}.

Definition bind {A B : Type} (m : resultado A) (f : A -> resultado B)
  : resultado B :=
  match m with
  | Ok a => f a
  | Error e => Error e
  | NoFinito => NoFinito
  end.

(** Python's [x / y] between Python numbers. *)
Definition dividir (x y : Q) : resultado Q :=
  if Qeq_bool y 0 then Error ZeroDivisionError else Ok (x / y).

(** [x / y] when an operand is a NumPy scalar. *)
Definition dividir_np (x y : Q) : resultado Q :=
  if Qeq_bool y 0 then NoFinito else Ok (x / y).

End Resultado.
Export Resultado.

Notation "x <- m ;; k" := (bind m (fun x => k))
  (at level 61, m at next level, right associativity).
Notation "' p <- m ;; k" := (bind m (fun x => let p := x in k))
  (at level 61, p pattern, m at next level, right associativity).

(** ** Comparisons and [numpy.clip] *)

Module Numpy.

(** [x < y] and [x > y] as Python evaluates them. *)
Definition Qltb (x y : Q) : bool := negb (Qle_bool y x).
Definition Qgtb (x y : Q) : bool := Qltb y x.

(** [np.clip(x, lo, hi)] is [minimum(maximum(x, lo), hi)]. *)
Definition clip (x lo hi : Q) : Q := Qmin (Qmax x lo) hi.

End Numpy.
Export Numpy.

(** ** [collections.deque] with [maxlen] *)

Module Deque.

Record deque (A : Type) : Type := {
  maxlen : nat;
  elementos : list A
}.

Arguments maxlen {A} d.
Arguments elementos {A} d.

Definition nuevo {A : Type} (n : nat) : deque A :=
  {| maxlen := n; elementos := [] |}.

Definition len {A : Type} (d : deque A) : nat := length (elementos d).

(** [d.append(x)]: a full deque drops its oldest element. *)
Definition append {A : Type} (d : deque A) (x : A) : deque A :=
  {| maxlen := maxlen d;
     elementos :=
       if (len d <? maxlen d)%nat
       then elementos d ++ [x]
       else tl (elementos d ++ [x]) |}.

(** [d[-1]], with a default for the empty deque. *)
Definition ultimo {A : Type} (d : deque A) (x0 : A) : A :=
  last (elementos d) x0.

End Deque.
Export Deque.

(** ** Attributes of [SistemaControlMotor] *)

(** Attributes written by [__init__] only. *)
Record Parametros : Type := {
  dt : Q;
  rpm_nominal : Q;
  velocidad_min : Q;
  velocidad_max : Q;
  vss_vel_min : Q;
  vss_vel_max : Q;
  vss_volt_min : Q;
  vss_volt_max : Q;
  senal_ctrl_offset : Q;
  rango_offset_min : Q;
  rango_offset_max : Q;
  Kp : Q;
  Ki : Q;
  Kd : Q;
  factor_atenuacion_perturbacion : Q
}.

(** Attributes the methods assign. *)
Record Variables : Type := {
  velocidad_nominal : Q;
  velocidad_actual : Q;
  rpm_ctrl : Q;
  rpm_reales : Q;
  error_kmh : Q;
  error_volts : Q;
  senal_control_interna : Q;
  senal_control_volts : Q;
  perturbacion : Q;
  retroalimentacion : Q;
  tiempo_transcurrido : Q;
  integral : Q;
  error_anterior_kmh : Q;
  velocidad_anterior : Q;
  tendencia : Q;
  (* whether the attribute holds a NumPy scalar, as [np.clip] returns,
     and not the Python number the constructor wrote *)
  velocidad_actual_np : bool;
  velocidad_anterior_np : bool
}.

(** The history deques. *)
Record Historiales : Type := {
  historial_tiempo : deque Q;
  historial_entrada : deque Q;
  historial_salida : deque Q;
  historial_error_kmh : deque Q;
  historial_error_volts : deque Q;
  historial_control_volts : deque Q;
  historial_control_interna : deque Q;
  historial_perturbacion : deque Q;
  historial_retro : deque Q;
  historial_proporcional : deque Q;
  historial_integral : deque Q;
  historial_derivativo : deque Q;
  historial_rpm_ctrl : deque Q;
  historial_rpm_reales : deque Q;
  historial_en_rango : deque bool
}.

Record SistemaControlMotor : Type := {
  par : Parametros;
  var : Variables;
  hist : Historiales
}.

(** ** Methods that only read the object *)

Section Lectura.

Variable self : SistemaControlMotor.

Definition velocidad_a_voltaje (velocidad : Q) : Q :=
  if Qeq_bool (vss_vel_max (par self)) (vss_vel_min (par self)) then 0
  else
    clip
      (((velocidad - vss_vel_min (par self)) /
        (vss_vel_max (par self) - vss_vel_min (par self)))
       * (vss_volt_max (par self) - vss_volt_min (par self))
       + vss_volt_min (par self))
      (vss_volt_min (par self)) (vss_volt_max (par self)).

Definition voltaje_a_velocidad (voltaje : Q) : Q :=
  if Qeq_bool (vss_volt_max (par self)) (vss_volt_min (par self))
  then vss_vel_min (par self)
  else
    ((voltaje - vss_volt_min (par self)) /
     (vss_volt_max (par self) - vss_volt_min (par self)))
    * (vss_vel_max (par self) - vss_vel_min (par self))
    + vss_vel_min (par self).

Definition error_volts_a_kmh (error_volts_in : Q) : resultado Q :=
  escala <- dividir (vss_vel_max (par self) - vss_vel_min (par self))
                    (vss_volt_max (par self) - vss_volt_min (par self)) ;;
  Ok (error_volts_in * escala).

Definition MAX_CTRL_INTERNA : Q := 25.

Definition senal_control_a_voltaje (senal_control_interna_in : Q) : Q :=
  let senal_escalada :=
    clip senal_control_interna_in (- MAX_CTRL_INTERNA) MAX_CTRL_INTERNA
    * (senal_ctrl_offset (par self) / MAX_CTRL_INTERNA) in
  let voltaje_final := senal_escalada + senal_ctrl_offset (par self) in
  clip voltaje_final (vss_volt_min (par self)) (vss_volt_max (par self)).

Definition get_rango_objetivo : Q * Q :=
  (velocidad_nominal (var self) + rango_offset_min (par self),
   velocidad_nominal (var self) + rango_offset_max (par self)).

Definition esta_en_rango_objetivo : bool :=
  let '(rango_min, rango_max) := get_rango_objetivo in
  Qle_bool rango_min (velocidad_actual (var self))
  && Qle_bool (velocidad_actual (var self)) rango_max.

Definition aplicar_perturbacion_atenuada (perturbacion_in : Q) : Q :=
  let perturbacion_limited := clip perturbacion_in (-100) 200 in
  let perturbacion_atenuada :=
    perturbacion_limited * factor_atenuacion_perturbacion (par self) in
  perturbacion_atenuada.

End Lectura.

(** ** The controller: [calcular_control_proporcional_inteligente]

    The method is a sequence of six numbered blocks; each is a definition
    here, and the method composes them in the order of the source. *)

Section Controlador.

Variable self : SistemaControlMotor.

(** 1. CALCULAR TENDENCIA: the new value of [self.tendencia]. *)
Definition calcular_tendencia : resultado Q :=
  if (2 <=? len (historial_salida (hist self)))%nat
  then
    (if velocidad_actual_np (var self) || velocidad_anterior_np (var self)
     then dividir_np else dividir)
      (velocidad_actual (var self) - velocidad_anterior (var self))
      (dt (par self))
  else Ok (tendencia (var self)).

(** 2. PROPORCIONAL ADAPTATIVO: the term [P]. *)
Definition proporcional_adaptativo (error_kmh_l : Q) : Q :=
  let '(_, rango_max) := get_rango_objetivo self in
  let '(error_efectivo, Kp_efectivo) :=
    if negb (esta_en_rango_objetivo self) then
      if Qgtb (velocidad_actual (var self)) rango_max
      then (velocidad_nominal (var self) - velocidad_actual (var self),
            Kp (par self) * 1.5)
      else (velocidad_nominal (var self) - velocidad_actual (var self),
            Kp (par self) * 1.3)
    else
      let margen := 0.3 in
      (error_kmh_l,
       if Qgtb (velocidad_actual (var self))
               (velocidad_nominal (var self) + margen)
          || Qltb (velocidad_actual (var self))
                  (velocidad_nominal (var self) - margen)
       then Kp (par self) * 0.7
       else Kp (par self)) in
  Kp_efectivo * error_efectivo.

(** 3. INTEGRAL MUY LIMITADA: the new value of [self.integral]. *)
Definition integral_limitada (error_kmh_l : Q) : Q :=
  if esta_en_rango_objetivo self && Qltb (Qabs error_kmh_l) 1
  then clip (integral (var self) + error_kmh_l * dt (par self) * 0.02) (-2) 2
  else integral (var self) * 0.9.

(** 4. DERIVATIVO: the local [derivativo]. *)
Definition derivativo (error_kmh_l : Q) : resultado Q :=
  if Qgtb (dt (par self)) 0
  then dividir (error_kmh_l - error_anterior_kmh (var self)) (dt (par self))
  else Ok 0.

(** 5. ACCIÓN CORRECTIVA, from the trend computed in block 1. *)
Definition accion_correctiva_de (tendencia_l : Q) : Q :=
  let '(rango_min, rango_max) := get_rango_objetivo self in
  let velocidad_proyectada :=
    velocidad_actual (var self) + tendencia_l * dt (par self) in
  if Qgtb velocidad_proyectada (rango_max + 0.3) then
    let exceso := velocidad_proyectada - (rango_max + 0.2) in
    - exceso * 10
  else if Qltb velocidad_proyectada (rango_min - 0.3) then
    let deficit := (rango_min - 0.2) - velocidad_proyectada in
    deficit * 6
  else 0.

(** 6. LIMITACIÓN INTELIGENTE of the summed command. *)
Definition limitacion_inteligente (control : Q) : Q :=
  let '(rango_min, rango_max) := get_rango_objetivo self in
  if Qgtb (velocidad_actual (var self)) (rango_max + 0.2) then
    clip control (-30) 5
  else if Qltb (velocidad_actual (var self)) (rango_min - 0.2) then
    clip control (-5) 20
  else
    clip control (-25) 25.

(** The attributes after the call. *)
Definition variables_tras_control
  (tendencia_l integral_l error_kmh_l : Q) : Variables :=
  {| velocidad_nominal := velocidad_nominal (var self);
     velocidad_actual := velocidad_actual (var self);
     rpm_ctrl := rpm_ctrl (var self);
     rpm_reales := rpm_reales (var self);
     error_kmh := error_kmh (var self);
     error_volts := error_volts (var self);
     senal_control_interna := senal_control_interna (var self);
     senal_control_volts := senal_control_volts (var self);
     perturbacion := perturbacion (var self);
     retroalimentacion := retroalimentacion (var self);
     tiempo_transcurrido := tiempo_transcurrido (var self);
     integral := integral_l;
     error_anterior_kmh := error_kmh_l;
     velocidad_anterior := velocidad_actual (var self);
     tendencia := tendencia_l;
     velocidad_actual_np := velocidad_actual_np (var self);
     velocidad_anterior_np := velocidad_actual_np (var self) |}.

(** What the method returns: [control, P, I, D, accion_correctiva]. *)
Record SalidaControl : Type := {
  sc_control : Q;
  sc_P : Q;
  sc_I : Q;
  sc_D : Q;
  sc_accion_correctiva : Q
}.

Definition calcular_control_proporcional_inteligente (error_volts_in : Q)
  : resultado (SalidaControl * SistemaControlMotor) :=
  error_kmh_l <- error_volts_a_kmh self error_volts_in ;;
  tendencia_l <- calcular_tendencia ;;
  let P := proporcional_adaptativo error_kmh_l in
  let integral_l := integral_limitada error_kmh_l in
  let I := Ki (par self) * integral_l in
  derivativo_l <- derivativo error_kmh_l ;;
  let D := Kd (par self) * derivativo_l in
  let control := P + I + D in
  let accion_correctiva := accion_correctiva_de tendencia_l in
  let control := control + accion_correctiva in
  let control := limitacion_inteligente control in
  Ok ({| sc_control := control; sc_P := P; sc_I := I; sc_D := D;
         sc_accion_correctiva := accion_correctiva |},
      {| par := par self;
         var := variables_tras_control tendencia_l integral_l error_kmh_l;
         hist := hist self |}).

End Controlador.

(** ** The tick: [actualizar_sistema] *)

Section Paso.

Variable self : SistemaControlMotor.

(** The object once [velocidad_nominal], [tiempo_transcurrido] and
    [error_volts] are assigned, as the controller is called on it. *)
Definition antes_del_control (velocidad_nominal_l error_volts_l : Q)
  : SistemaControlMotor :=
  {| par := par self;
     var :=
       {| velocidad_nominal := velocidad_nominal_l;
          velocidad_actual := velocidad_actual (var self);
          rpm_ctrl := rpm_ctrl (var self);
          rpm_reales := rpm_reales (var self);
          error_kmh := error_kmh (var self);
          error_volts := error_volts_l;
          senal_control_interna := senal_control_interna (var self);
          senal_control_volts := senal_control_volts (var self);
          perturbacion := perturbacion (var self);
          retroalimentacion := retroalimentacion (var self);
          tiempo_transcurrido := tiempo_transcurrido (var self) + dt (par self);
          integral := integral (var self);
          error_anterior_kmh := error_anterior_kmh (var self);
          velocidad_anterior := velocidad_anterior (var self);
          tendencia := tendencia (var self);
          velocidad_actual_np := velocidad_actual_np (var self);
          velocidad_anterior_np := velocidad_anterior_np (var self) |};
     hist := hist self |}.

End Paso.

Section Dinamica.

(** [self] is the object as the controller leaves it. *)
Variable self : SistemaControlMotor.

Definition ganancia_base : Q :=
  if negb (esta_en_rango_objetivo self) then 18 * 1.3 else 18.

(** [self.rpm_ctrl] after the command is integrated and limited. *)
Definition rpm_ctrl_nuevo (senal_control_interna_l : Q) : Q :=
  let rpm_cambio := senal_control_interna_l * ganancia_base in
  clip (rpm_ctrl (var self) + rpm_cambio * dt (par self)) 4700 6300.

(** [self.rpm_reales] after the attenuated disturbance is added. *)
Definition rpm_reales_nuevo (rpm_ctrl_l perturbacion_in : Q) : Q :=
  let perturbacion_atenuada :=
    aplicar_perturbacion_atenuada self perturbacion_in in
  clip (rpm_ctrl_l + perturbacion_atenuada) 4700 6300.

(** [self.velocidad_actual] from the real RPM, which [np.clip] has just
    returned. *)
Definition velocidad_actual_nueva (rpm_reales_l : Q) : resultado Q :=
  cociente <- dividir_np rpm_reales_l (rpm_nominal (par self)) ;;
  Ok (clip (cociente * velocidad_nominal (var self))
           (velocidad_min (par self)) (velocidad_max (par self))).

Definition variables_tras_dinamica
  (control control_volts rpm_ctrl_l rpm_reales_l velocidad_l : Q)
  : Variables :=
  {| velocidad_nominal := velocidad_nominal (var self);
     velocidad_actual := velocidad_l;
     rpm_ctrl := rpm_ctrl_l;
     rpm_reales := rpm_reales_l;
     error_kmh := velocidad_nominal (var self) - velocidad_actual (var self);
     error_volts := error_volts (var self);
     senal_control_interna := control;
     senal_control_volts := control_volts;
     perturbacion := perturbacion (var self);
     retroalimentacion := velocidad_l;
     tiempo_transcurrido := tiempo_transcurrido (var self);
     integral := integral (var self);
     error_anterior_kmh := error_anterior_kmh (var self);
     velocidad_anterior := velocidad_anterior (var self);
     tendencia := tendencia (var self);
     velocidad_actual_np := true;
     velocidad_anterior_np := velocidad_anterior_np (var self) |}.

End Dinamica.

(** The appends at the end of the tick; [self] already has its new
    attributes. *)
Definition actualizar_historiales
  (self : SistemaControlMotor) (perturbacion_in P I D : Q) : Historiales :=
  let h := hist self in
  let v := var self in
  let tiempo_actual :=
    if (0 <? len (historial_tiempo h))%nat
    then ultimo (historial_tiempo h) 0 + dt (par self)
    else 0 in
  {| historial_tiempo := append (historial_tiempo h) tiempo_actual;
     historial_entrada := append (historial_entrada h) (velocidad_nominal v);
     historial_salida := append (historial_salida h) (velocidad_actual v);
     historial_error_kmh := append (historial_error_kmh h) (error_kmh v);
     historial_error_volts := append (historial_error_volts h) (error_volts v);
     historial_control_volts :=
       append (historial_control_volts h) (senal_control_volts v);
     historial_control_interna :=
       append (historial_control_interna h) (senal_control_interna v);
     historial_perturbacion := append (historial_perturbacion h) perturbacion_in;
     historial_retro := append (historial_retro h) (retroalimentacion v);
     historial_proporcional := append (historial_proporcional h) P;
     historial_integral := append (historial_integral h) I;
     historial_derivativo := append (historial_derivativo h) D;
     historial_rpm_ctrl := append (historial_rpm_ctrl h) (rpm_ctrl v);
     historial_rpm_reales := append (historial_rpm_reales h) (rpm_reales v);
     historial_en_rango :=
       append (historial_en_rango h) (esta_en_rango_objetivo self) |}.

(** The local [delta_voltaje_ctrl] is computed and never read, and the
    closing call of [log_valores] only prints. *)
Definition actualizar_sistema
  (self : SistemaControlMotor) (perturbacion_in : Q)
  (velocidad_nominal_in : option Q) : resultado SistemaControlMotor :=
  let velocidad_nominal_l :=
    match velocidad_nominal_in with
    | Some v => v
    | None => velocidad_nominal (var self)
    end in
  let voltaje_nominal := velocidad_a_voltaje self velocidad_nominal_l in
  let voltaje_actual := velocidad_a_voltaje self (velocidad_actual (var self)) in
  let error_volts_l := voltaje_nominal - voltaje_actual in
  ' (salida, s1) <-
    calcular_control_proporcional_inteligente
      (antes_del_control self velocidad_nominal_l error_volts_l)
      error_volts_l ;;
  let control := sc_control salida in
  let control_volts := senal_control_a_voltaje s1 control in
  let rpm_ctrl_l := rpm_ctrl_nuevo s1 control in
  let rpm_reales_l := rpm_reales_nuevo s1 rpm_ctrl_l perturbacion_in in
  velocidad_l <- velocidad_actual_nueva s1 rpm_reales_l ;;
  let s2 :=
    {| par := par s1;
       var := variables_tras_dinamica s1 control control_volts
                rpm_ctrl_l rpm_reales_l velocidad_l;
       hist := hist s1 |} in
  Ok {| par := par s2;
        var := var s2;
        hist := actualizar_historiales s2 perturbacion_in
                  (sc_P salida) (sc_I salida) (sc_D salida) |}.


(** ** The constructor: [__init__] *)

Definition parametros_iniciales : Parametros :=
  {| dt := 0.1;
     rpm_nominal := 5500;
     velocidad_min := 50;
     velocidad_max := 100;
     vss_vel_min := 50;
     vss_vel_max := 100;
     vss_volt_min := 0;
     vss_volt_max := 5;
     senal_ctrl_offset := 2.5;
     rango_offset_min := -2;
     rango_offset_max := 1;
     Kp := 4.0;
     Ki := 0.2;
     Kd := 0.8;
     factor_atenuacion_perturbacion := 0.3 |}.

Definition variables_iniciales : Variables :=
  {| velocidad_nominal := 80;
     velocidad_actual := 70;
     rpm_ctrl := 4812;
     rpm_reales := 4812;
     error_kmh := 0;
     error_volts := 0;
     senal_control_interna := 0;
     senal_control_volts := 0;
     perturbacion := 0;
     retroalimentacion := 0;
     tiempo_transcurrido := 0;
     integral := 0;
     error_anterior_kmh := 0;
     velocidad_anterior := 70;
     tendencia := 0;
     velocidad_actual_np := false;
     velocidad_anterior_np := false |}.

Definition max_points : nat := 150.

Definition historiales_vacios : Historiales :=
  {| historial_tiempo := nuevo max_points;
     historial_entrada := nuevo max_points;
     historial_salida := nuevo max_points;
     historial_error_kmh := nuevo max_points;
     historial_error_volts := nuevo max_points;
     historial_control_volts := nuevo max_points;
     historial_control_interna := nuevo max_points;
     historial_perturbacion := nuevo max_points;
     historial_retro := nuevo max_points;
     historial_proporcional := nuevo max_points;
     historial_integral := nuevo max_points;
     historial_derivativo := nuevo max_points;
     historial_rpm_ctrl := nuevo max_points;
     historial_rpm_reales := nuevo max_points;
     historial_en_rango := nuevo max_points |}.

(** One round of the loop [for i in range(5)] that preloads the deques. *)
Definition inicializar_historiales
  (self : SistemaControlMotor) (i : nat) : SistemaControlMotor :=
  let h := hist self in
  let v := var self in
  let t := inject_Z (Z.of_nat i) * dt (par self) in
  {| par := par self;
     var := var self;
     hist :=
       {| historial_tiempo := append (historial_tiempo h) t;
          historial_entrada := append (historial_entrada h) (velocidad_nominal v);
          historial_salida := append (historial_salida h) (velocidad_actual v);
          historial_error_kmh := append (historial_error_kmh h) 0;
          historial_error_volts := append (historial_error_volts h) 0;
          historial_control_volts :=
            append (historial_control_volts h) (senal_ctrl_offset (par self));
          historial_control_interna := append (historial_control_interna h) 0;
          historial_perturbacion := append (historial_perturbacion h) 0;
          historial_retro := append (historial_retro h) (velocidad_actual v);
          historial_proporcional := append (historial_proporcional h) 0;
          historial_integral := append (historial_integral h) 0;
          historial_derivativo := append (historial_derivativo h) 0;
          historial_rpm_ctrl := append (historial_rpm_ctrl h) (rpm_ctrl v);
          historial_rpm_reales := append (historial_rpm_reales h) (rpm_reales v);
          historial_en_rango :=
            append (historial_en_rango h) (esta_en_rango_objetivo self) |} |}.

Definition __init__ : SistemaControlMotor :=
  fold_left inicializar_historiales (seq 0 5)
    {| par := parametros_iniciales;
       var := variables_iniciales;
       hist := historiales_vacios |}.

(** ** Runs

    [animar] calls [actualizar_sistema] once per frame with the two slider
    values; a run is the list of those inputs. *)

Definition entrada : Type := Q * option Q.

Fixpoint ejecutar (self : SistemaControlMotor) (entradas : list entrada)
  : resultado SistemaControlMotor :=
  match entradas with
  | [] => Ok self
  | (perturbacion_in, velocidad_nominal_in) :: resto =>
      s <- actualizar_sistema self perturbacion_in velocidad_nominal_in ;;
      ejecutar s resto
  end.

(** Every state met along a run, the initial one first. *)
Fixpoint traza (self : SistemaControlMotor) (entradas : list entrada)
  : resultado (list SistemaControlMotor) :=
  match entradas with
  | [] => Ok [self]
  | (perturbacion_in, velocidad_nominal_in) :: resto =>
      s <- actualizar_sistema self perturbacion_in velocidad_nominal_in ;;
      t <- traza s resto ;;
      Ok (self :: t)
  end.

(** ** Notions used in the statements *)

(** An attribute of the object a tick returns, in lowest terms. *)
Definition observar
  (campo : Variables -> Q) (r : resultado SistemaControlMotor) : option Q :=
  match r with
  | Ok s => Some (Qred (campo (var s)))
  | Error _ => None
  | NoFinito => None
  end.

(** A deque of the simulation: capacity [max_points], at least the five
    preloaded samples. *)
Definition historial_ok {A : Type} (d : deque A) : Prop :=
  maxlen d = max_points /\ (5 <= len d <= max_points)%nat.

(** The three divisors of a tick are not zero. *)
Definition bien_configurado (s : SistemaControlMotor) : Prop :=
  0 < dt (par s)
  /\ ~ vss_volt_max (par s) == vss_volt_min (par s)
  /\ ~ rpm_nominal (par s) == 0.

(** Km/h per volt: the factor of [error_volts_a_kmh]. *)
Definition escala_de (s : SistemaControlMotor) : Q :=
  (vss_vel_max (par s) - vss_vel_min (par s)) /
  (vss_volt_max (par s) - vss_volt_min (par s)).

(** The command before saturation, from the three intermediate values. *)
Definition control_sumado (s : SistemaControlMotor) (ek t d : Q) : Q :=
  proporcional_adaptativo s ek
  + Ki (par s) * integral_limitada s ek
  + Kd (par s) * d
  + accion_correctiva_de s t.

(** Every deque of the object has that shape. *)
Definition historiales_ok (h : Historiales) : Prop :=
  historial_ok (historial_tiempo h)
  /\ historial_ok (historial_entrada h)
  /\ historial_ok (historial_salida h)
  /\ historial_ok (historial_error_kmh h)
  /\ historial_ok (historial_error_volts h)
  /\ historial_ok (historial_control_volts h)
  /\ historial_ok (historial_control_interna h)
  /\ historial_ok (historial_perturbacion h)
  /\ historial_ok (historial_retro h)
  /\ historial_ok (historial_proporcional h)
  /\ historial_ok (historial_integral h)
  /\ historial_ok (historial_derivativo h)
  /\ historial_ok (historial_rpm_ctrl h)
  /\ historial_ok (historial_rpm_reales h)
  /\ historial_ok (historial_en_rango h).

(** The target of the tick: the argument, or the current one for [None]. *)
Definition nominal_elegida (s : SistemaControlMotor) (vn : option Q) : Q :=
  match vn with
  | Some v => v
  | None => velocidad_nominal (var s)
  end.

(** The error in volts that the tick hands to the controller. *)
Definition error_volts_de (s : SistemaControlMotor) (vn : option Q) : Q :=
  velocidad_a_voltaje s (nominal_elegida s vn)
  - velocidad_a_voltaje s (velocidad_actual (var s)).

(** The object on which the controller runs during the tick. *)
Definition entrada_control (s : SistemaControlMotor) (vn : option Q)
  : SistemaControlMotor :=
  antes_del_control s (nominal_elegida s vn) (error_volts_de s vn).

(** What every state of a run satisfies. *)
Record invariante (s : SistemaControlMotor) : Prop := {
  inv_par : par s = parametros_iniciales;
  inv_hist : historiales_ok (hist s);
  inv_velocidad : 50 <= velocidad_actual (var s) <= 100;
  inv_rpm_ctrl : 4700 <= rpm_ctrl (var s) <= 6300;
  inv_rpm_reales : 4700 <= rpm_reales (var s) <= 6300;
  inv_integral : Qabs (integral (var s)) <= 2
}.

(** The assignment [sistema.dt = d]: the class has no other way to run
    with a time step that is not the constructor's. *)
Definition asignar_dt (s : SistemaControlMotor) (d : Q) : SistemaControlMotor :=
  {| par :=
       {| dt := d;
          rpm_nominal := rpm_nominal (par s);
          velocidad_min := velocidad_min (par s);
          velocidad_max := velocidad_max (par s);
          vss_vel_min := vss_vel_min (par s);
          vss_vel_max := vss_vel_max (par s);
          vss_volt_min := vss_volt_min (par s);
          vss_volt_max := vss_volt_max (par s);
          senal_ctrl_offset := senal_ctrl_offset (par s);
          rango_offset_min := rango_offset_min (par s);
          rango_offset_max := rango_offset_max (par s);
          Kp := Kp (par s);
          Ki := Ki (par s);
          Kd := Kd (par s);
          factor_atenuacion_perturbacion :=
            factor_atenuacion_perturbacion (par s) |};
     var := var s;
     hist := hist s |}.

(** The lengths of the fifteen deques. *)
Definition longitudes (h : Historiales) : list nat :=
  [ len (historial_tiempo h); len (historial_entrada h);
    len (historial_salida h); len (historial_error_kmh h);
    len (historial_error_volts h); len (historial_control_volts h);
    len (historial_control_interna h); len (historial_perturbacion h);
    len (historial_retro h); len (historial_proporcional h);
    len (historial_integral h); len (historial_derivativo h);
    len (historial_rpm_ctrl h); len (historial_rpm_reales h);
    len (historial_en_rango h) ].

(** The constructed object after the assignment
    [sistema.vss_volt_min = 5]: its voltage range has zero width. *)
Definition sensor_sin_rango : SistemaControlMotor :=
  {| par :=
       {| dt := 0.1;
          rpm_nominal := 5500;
          velocidad_min := 50;
          velocidad_max := 100;
          vss_vel_min := 50;
          vss_vel_max := 100;
          vss_volt_min := 5;
          vss_volt_max := 5;
          senal_ctrl_offset := 2.5;
          rango_offset_min := -2;
          rango_offset_max := 1;
          Kp := 4.0;
          Ki := 0.2;
          Kd := 0.8;
          factor_atenuacion_perturbacion := 0.3 |};
     var := var __init__;
     hist := hist __init__ |}.

(** The states the simulation can be in: those a run from the constructed
    object ends in. *)
Definition alcanzable (s : SistemaControlMotor) : Prop :=
  exists entradas, ejecutar __init__ entradas = Ok s.

(** The test [len(self.historial_tiempo) % 5 == 0] that closes
    [actualizar_sistema], on the object the tick returns: whether
    [log_valores] is called. *)
Definition log_emitido (s : SistemaControlMotor) : bool :=
  (len (historial_tiempo (hist s)) mod 5 =? 0)%nat.

(** The marker [correccion] of [log_valores]: the shield is printed when
    [abs(accion_correctiva) > 2.0]. *)
Definition correccion_marcada (accion_correctiva : Q) : bool :=
  Qgtb (Qabs accion_correctiva) 2.

(** The horizontal axis limits [animar] sets after a tick:
    [(x_min, x_max)]. *)
Definition limites_eje_x (s : SistemaControlMotor) : Q * Q :=
  let ultimo_tiempo := ultimo (historial_tiempo (hist s)) 0 in
  (Qmax 0 (ultimo_tiempo - 15), ultimo_tiempo + 1).

(** Consecutive elements of a list differ by [d]. *)
Fixpoint paso_constante (d : Q) (l : list Q) : Prop :=
  match l with
  | [] => True
  | a :: r =>
      match r with
      | [] => True
      | b :: _ => b == a + d
      end /\ paso_constante d r
  end.

(** An object at rest on its target: 80 km/h at the nominal 5500 RPM, no
    trend, no stored error. *)
Definition en_equilibrio : SistemaControlMotor :=
  {| par := parametros_iniciales;
     var :=
       {| velocidad_nominal := 80;
          velocidad_actual := 80;
          rpm_ctrl := 5500;
          rpm_reales := 5500;
          error_kmh := 0;
          error_volts := 0;
          senal_control_interna := 0;
          senal_control_volts := 2.5;
          perturbacion := 0;
          retroalimentacion := 80;
          tiempo_transcurrido := 0;
          integral := 0;
          error_anterior_kmh := 0;
          velocidad_anterior := 80;
          tendencia := 0;
          velocidad_actual_np := true;
          velocidad_anterior_np := true |};
     hist := hist __init__ |}.

(** What the histories and the clock look like after [n] ticks. *)
Record historia_ok (n : nat) (s : SistemaControlMotor) : Prop := {
  ho_longitudes : longitudes (hist s) = repeat (Nat.min (5 + n) 150) 15;
  ho_tiempo : tiempo_transcurrido (var s) == 0.1 * inject_Z (Z.of_nat n);
  ho_ultimo_tiempo :
    ultimo (historial_tiempo (hist s)) 0
    == 0.4 + 0.1 * inject_Z (Z.of_nat n);
  ho_paso : paso_constante 0.1 (elementos (historial_tiempo (hist s)));
  ho_salida :
    Forall (fun v => 50 <= v <= 100) (elementos (historial_salida (hist s)));
  ho_ultima_salida :
    ultimo (historial_salida (hist s)) 0 = velocidad_actual (var s);
  ho_retro :
    elementos (historial_retro (hist s))
    = elementos (historial_salida (hist s));
  ho_ultima_entrada :
    ultimo (historial_entrada (hist s)) 0 = velocidad_nominal (var s);
  ho_ultimo_en_rango :
    ultimo (historial_en_rango (hist s)) true = esta_en_rango_objetivo s
}.

(** * Properties *)

(** ** Arithmetic of the helpers *)

Lemma Qltb_lt (x y : Q) : Qltb x y = true <-> x < y.
Proof.
  unfold Qltb. rewrite negb_true_iff. split.
  - intros H. apply Qnot_le_lt. intros Hle.
    apply Qle_bool_iff in Hle. congruence.
  - intros H. destruct (Qle_bool y x) eqn:E; [|reflexivity].
    apply Qle_bool_iff in E. exfalso. exact (Qlt_not_le _ _ H E).
Qed.

Lemma Qltb_ge (x y : Q) : Qltb x y = false <-> y <= x.
Proof.
  unfold Qltb. rewrite negb_false_iff. apply Qle_bool_iff.
Qed.

Lemma Qgtb_gt (x y : Q) : Qgtb x y = true <-> y < x.
Proof. apply Qltb_lt. Qed.

Lemma Qgtb_le (x y : Q) : Qgtb x y = false <-> x <= y.
Proof. apply Qltb_ge. Qed.

Lemma clip_bounds (x lo hi : Q) : lo <= hi -> lo <= clip x lo hi <= hi.
Proof.
  intros H. unfold clip. split.
  - apply Q.min_glb; [apply Q.le_max_r | exact H].
  - apply Q.le_min_r.
Qed.

Lemma clip_id (x lo hi : Q) : lo <= x <= hi -> clip x lo hi == x.
Proof.
  intros [Hlo Hhi]. unfold clip.
  rewrite (Q.max_l x lo) by exact Hlo.
  apply Q.min_l. exact Hhi.
Qed.

Lemma dividir_ok (x y : Q) : ~ y == 0 -> dividir x y = Ok (x / y).
Proof.
  intros H. unfold dividir.
  destruct (Qeq_bool y 0) eqn:E; [|reflexivity].
  apply Qeq_bool_eq in E. contradiction.
Qed.

Lemma dividir_cero (x y : Q) : y == 0 -> dividir x y = Error ZeroDivisionError.
Proof.
  intros H. unfold dividir. rewrite (Qeq_eq_bool _ _ H). reflexivity.
Qed.

Lemma dividir_np_ok (x y : Q) : ~ y == 0 -> dividir_np x y = Ok (x / y).
Proof.
  intros H. unfold dividir_np.
  destruct (Qeq_bool y 0) eqn:E; [|reflexivity].
  apply Qeq_bool_eq in E. contradiction.
Qed.

Lemma dividir_np_cero (x y : Q) : y == 0 -> dividir_np x y = NoFinito.
Proof.
  intros H. unfold dividir_np. rewrite (Qeq_eq_bool _ _ H). reflexivity.
Qed.

(** ** The deque *)

Lemma maxlen_append {A : Type} (d : deque A) (x : A) :
  maxlen (append d x) = maxlen d.
Proof. reflexivity. Qed.

Lemma len_append {A : Type} (d : deque A) (x : A) :
  len (append d x) = if (len d <? maxlen d)%nat then S (len d) else len d.
Proof.
  unfold append, len. simpl.
  destruct (length (elementos d) <? maxlen d)%nat.
  - rewrite length_app. simpl. lia.
  - destruct (elementos d) as [|a l]; simpl; [reflexivity|].
    rewrite length_app. simpl. lia.
Qed.

Lemma historial_ok_append {A : Type} (d : deque A) (x : A) :
  historial_ok d -> historial_ok (append d x).
Proof.
  unfold historial_ok. intros [Hm Hl].
  rewrite maxlen_append, len_append, Hm.
  split; [reflexivity|].
  destruct (len d <? max_points)%nat eqn:E.
  - apply Nat.ltb_lt in E. lia.
  - lia.
Qed.

(** ** The fallible steps succeed on a well-configured object *)

Lemma error_volts_a_kmh_ok (s : SistemaControlMotor) (e : Q) :
  ~ vss_volt_max (par s) == vss_volt_min (par s) ->
  error_volts_a_kmh s e = Ok (e * escala_de s).
Proof.
  intros H. unfold error_volts_a_kmh.
  rewrite dividir_ok; [reflexivity|].
  intros H0. apply H. lra.
Qed.

Lemma calcular_tendencia_ok (s : SistemaControlMotor) :
  0 < dt (par s) ->
  calcular_tendencia s =
  Ok (if (2 <=? len (historial_salida (hist s)))%nat
      then (velocidad_actual (var s) - velocidad_anterior (var s)) / dt (par s)
      else tendencia (var s)).
Proof.
  intros H. unfold calcular_tendencia.
  destruct (2 <=? len (historial_salida (hist s)))%nat; [|reflexivity].
  destruct (velocidad_actual_np (var s) || velocidad_anterior_np (var s));
    [apply dividir_np_ok | apply dividir_ok]; lra.
Qed.

Lemma derivativo_ok (s : SistemaControlMotor) (e : Q) :
  0 < dt (par s) ->
  derivativo s e = Ok ((e - error_anterior_kmh (var s)) / dt (par s)).
Proof.
  intros H. unfold derivativo.
  rewrite (proj2 (Qgtb_gt _ _) H).
  apply dividir_ok. lra.
Qed.

Lemma derivativo_sin_division (s : SistemaControlMotor) (e : Q) :
  dt (par s) <= 0 -> derivativo s e = Ok 0.
Proof.
  intros H. unfold derivativo.
  rewrite (proj2 (Qgtb_le _ _) H). reflexivity.
Qed.

Lemma calcular_control_ok (s : SistemaControlMotor) (ev : Q) :
  0 < dt (par s) ->
  ~ vss_volt_max (par s) == vss_volt_min (par s) ->
  exists ek t d,
    error_volts_a_kmh s ev = Ok ek
    /\ calcular_tendencia s = Ok t
    /\ derivativo s ek = Ok d
    /\ calcular_control_proporcional_inteligente s ev =
       Ok ({| sc_control := limitacion_inteligente s (control_sumado s ek t d);
              sc_P := proporcional_adaptativo s ek;
              sc_I := Ki (par s) * integral_limitada s ek;
              sc_D := Kd (par s) * d;
              sc_accion_correctiva := accion_correctiva_de s t |},
           {| par := par s;
              var := variables_tras_control s t (integral_limitada s ek) ek;
              hist := hist s |}).
Proof.
  intros Hdt Hv.
  eexists _, _, _.
  split; [apply error_volts_a_kmh_ok; exact Hv|].
  split; [apply calcular_tendencia_ok; exact Hdt|].
  split; [apply derivativo_ok; exact Hdt|].
  unfold calcular_control_proporcional_inteligente.
  rewrite error_volts_a_kmh_ok by exact Hv. cbn [bind].
  rewrite calcular_tendencia_ok by exact Hdt. cbn [bind].
  rewrite derivativo_ok by exact Hdt. cbn [bind].
  reflexivity.
Qed.

(** ** The histories keep their shape *)

Lemma actualizar_historiales_ok (s : SistemaControlMotor) (p P I D : Q) :
  historiales_ok (hist s) ->
  historiales_ok (actualizar_historiales s p P I D).
Proof.
  unfold historiales_ok, actualizar_historiales. cbn [historial_tiempo
    historial_entrada historial_salida historial_error_kmh
    historial_error_volts historial_control_volts historial_control_interna
    historial_perturbacion historial_retro historial_proporcional
    historial_integral historial_derivativo historial_rpm_ctrl
    historial_rpm_reales historial_en_rango].
  intros H. decompose [and] H.
  repeat split; apply historial_ok_append; assumption.
Qed.

Lemma historiales_ok_init : historiales_ok (hist __init__).
Proof.
  unfold historiales_ok, historial_ok, len, max_points. cbn.
  repeat split; lia.
Qed.

(** ** One tick, spelled out *)

Lemma velocidad_actual_nueva_ok (s : SistemaControlMotor) (r : Q) :
  ~ rpm_nominal (par s) == 0 ->
  velocidad_actual_nueva s r =
  Ok (clip (r / rpm_nominal (par s) * velocidad_nominal (var s))
           (velocidad_min (par s)) (velocidad_max (par s))).
Proof.
  intros H. unfold velocidad_actual_nueva.
  rewrite dividir_np_ok by exact H. reflexivity.
Qed.

Lemma actualizar_sistema_ok
  (s : SistemaControlMotor) (p : Q) (vn : option Q) :
  bien_configurado s ->
  exists ek t d s1 control rc rr v,
    error_volts_a_kmh (entrada_control s vn) (error_volts_de s vn) = Ok ek
    /\ calcular_tendencia (entrada_control s vn) = Ok t
    /\ derivativo (entrada_control s vn) ek = Ok d
    /\ s1 = {| par := par s;
               var := variables_tras_control (entrada_control s vn) t
                        (integral_limitada (entrada_control s vn) ek) ek;
               hist := hist s |}
    /\ control = limitacion_inteligente (entrada_control s vn)
                   (control_sumado (entrada_control s vn) ek t d)
    /\ rc = rpm_ctrl_nuevo s1 control
    /\ rr = rpm_reales_nuevo s1 rc p
    /\ velocidad_actual_nueva s1 rr = Ok v
    /\ actualizar_sistema s p vn =
       Ok {| par := par s;
             var := variables_tras_dinamica s1 control
                      (senal_control_a_voltaje s1 control) rc rr v;
             hist :=
               actualizar_historiales
                 {| par := par s;
                    var := variables_tras_dinamica s1 control
                             (senal_control_a_voltaje s1 control) rc rr v;
                    hist := hist s |}
                 p
                 (proporcional_adaptativo (entrada_control s vn) ek)
                 (Ki (par s) * integral_limitada (entrada_control s vn) ek)
                 (Kd (par s) * d) |}.
Proof.
  intros (Hdt & Hv & Hr).
  destruct (calcular_control_ok (entrada_control s vn) (error_volts_de s vn))
    as (ek & t & d & Hek & Ht & Hd & Hc); [exact Hdt | exact Hv |].
  exists ek, t, d.
  eexists _, _, _, _, _.
  split; [exact Hek|]. split; [exact Ht|]. split; [exact Hd|].
  split; [reflexivity|]. split; [reflexivity|].
  split; [reflexivity|]. split; [reflexivity|].
  split; [apply velocidad_actual_nueva_ok; exact Hr|].
  unfold actualizar_sistema.
  fold (nominal_elegida s vn). fold (error_volts_de s vn).
  fold (entrada_control s vn).
  rewrite Hc. cbn [bind sc_control sc_P sc_I sc_D par hist entrada_control
                   antes_del_control].
  rewrite velocidad_actual_nueva_ok by exact Hr. cbn [bind].
  reflexivity.
Qed.

(** ** The invariant of the simulation *)

Lemma parametros_bien_configurados (s : SistemaControlMotor) :
  par s = parametros_iniciales -> bien_configurado s.
Proof.
  intros H. unfold bien_configurado. rewrite H. cbn.
  repeat split; try reflexivity; intros E; discriminate E.
Qed.

Lemma invariante_init : invariante __init__.
Proof.
  constructor.
  - reflexivity.
  - exact historiales_ok_init.
  - cbn. split; discriminate.
  - cbn. split; discriminate.
  - cbn. split; discriminate.
  - cbn. discriminate.
Qed.

Lemma integral_limitada_acotada (s : SistemaControlMotor) (ek : Q) :
  Qabs (integral (var s)) <= 2 -> Qabs (integral_limitada s ek) <= 2.
Proof.
  intros H. apply Qabs_Qle_condition in H.
  apply Qabs_Qle_condition.
  unfold integral_limitada.
  destruct (esta_en_rango_objetivo s && Qltb (Qabs ek) 1).
  - apply clip_bounds. discriminate.
  - lra.
Qed.

(** What one tick leaves behind, on an object that satisfies the
    invariant. *)
Lemma actualizar_sistema_invariante
  (s : SistemaControlMotor) (p : Q) (vn : option Q) :
  invariante s ->
  exists s',
    actualizar_sistema s p vn = Ok s'
    /\ invariante s'
    /\ tendencia (var s') =
       (velocidad_actual (var s) - velocidad_anterior (var s)) / dt (par s)
    /\ velocidad_anterior (var s') = velocidad_actual (var s).
Proof.
  intros [Hpar Hhist Hv Hrc Hrr Hi].
  destruct (actualizar_sistema_ok s p vn (parametros_bien_configurados s Hpar))
    as (ek & t & d & s1 & control & rc & rr & v
        & Hek & Ht & Hd & Hs1 & Hcontrol & Hrc' & Hrr' & Hv' & Hs').
  eexists. split; [exact Hs'|].
  assert (Ev : v = clip (rr / rpm_nominal (par s1) * velocidad_nominal (var s1))
                        (velocidad_min (par s1)) (velocidad_max (par s1))).
  { rewrite velocidad_actual_nueva_ok in Hv'.
    - congruence.
    - rewrite Hs1. cbn [par]. rewrite Hpar. cbn. discriminate. }
  assert (Et : t = (velocidad_actual (var s) - velocidad_anterior (var s))
                   / dt (par s)).
  { rewrite calcular_tendencia_ok in Ht.
    - destruct Hhist as (_ & _ & (_ & Hl) & _).
      cbn [entrada_control antes_del_control hist par var velocidad_actual
           velocidad_anterior] in Ht.
      replace (2 <=? len (historial_salida (hist s)))%nat with true in Ht
        by (symmetry; apply Nat.leb_le; lia).
      congruence.
    - cbn [entrada_control antes_del_control par]. rewrite Hpar. reflexivity. }
  split; [|split].
  - constructor; cbn [par var hist variables_tras_dinamica velocidad_actual
                      rpm_ctrl rpm_reales integral].
    + exact Hpar.
    + apply actualizar_historiales_ok. exact Hhist.
    + rewrite Ev, Hs1. cbn [par]. rewrite Hpar.
      apply clip_bounds. discriminate.
    + rewrite Hrc'. apply clip_bounds. discriminate.
    + rewrite Hrr'. apply clip_bounds. discriminate.
    + rewrite Hs1. cbn [var variables_tras_control integral].
      apply integral_limitada_acotada. exact Hi.
  - cbn [var variables_tras_dinamica tendencia]. rewrite Hs1.
    cbn [var variables_tras_control tendencia]. exact Et.
  - cbn [var variables_tras_dinamica velocidad_anterior]. rewrite Hs1.
    reflexivity.
Qed.

(** Along a run from a state that satisfies the invariant, every tick
    succeeds and every state met satisfies it. *)
Lemma traza_invariante (entradas : list entrada) :
  forall s, invariante s ->
  exists t, traza s entradas = Ok t /\ Forall invariante t.
Proof.
  induction entradas as [|[p vn] resto IH]; intros s Hs.
  - exists [s]. split; [reflexivity|]. constructor; [exact Hs | constructor].
  - destruct (actualizar_sistema_invariante s p vn Hs) as (s' & Hs' & Hinv & _).
    destruct (IH s' Hinv) as (t & Ht & Hall).
    exists (s :: t). split.
    + cbn [traza]. rewrite Hs'. cbn [bind]. rewrite Ht. reflexivity.
    + constructor; assumption.
Qed.

Lemma ejecutar_invariante (entradas : list entrada) :
  forall s, invariante s ->
  exists s', ejecutar s entradas = Ok s' /\ invariante s'.
Proof.
  induction entradas as [|[p vn] resto IH]; intros s Hs.
  - exists s. split; [reflexivity | exact Hs].
  - destruct (actualizar_sistema_invariante s p vn Hs) as (s' & Hs' & Hinv & _).
    destruct (IH s' Hinv) as (s'' & Hs'' & Hinv'').
    exists s''. split; [|exact Hinv''].
    cbn [ejecutar]. rewrite Hs'. exact Hs''.
Qed.

(** The new integral and the growth of the output history in one tick. *)
Lemma actualizar_sistema_detalle
  (s : SistemaControlMotor) (p : Q) (vn : option Q) :
  invariante s ->
  exists s' ek,
    actualizar_sistema s p vn = Ok s'
    /\ error_volts_a_kmh (entrada_control s vn) (error_volts_de s vn) = Ok ek
    /\ integral (var s') = integral_limitada (entrada_control s vn) ek
    /\ len (historial_salida (hist s')) =
       Nat.min (S (len (historial_salida (hist s)))) max_points.
Proof.
  intros [Hpar Hhist Hv Hrc Hrr Hi].
  destruct (actualizar_sistema_ok s p vn (parametros_bien_configurados s Hpar))
    as (ek & t & d & s1 & control & rc & rr & v
        & Hek & Ht & Hd & Hs1 & Hcontrol & Hrc' & Hrr' & Hv' & Hs').
  eexists. exists ek. split; [exact Hs'|]. split; [exact Hek|]. split.
  - cbn [var variables_tras_dinamica integral]. rewrite Hs1. reflexivity.
  - cbn [hist actualizar_historiales historial_salida].
    rewrite len_append.
    destruct Hhist as (_ & _ & (Hm & Hl) & _). rewrite Hm.
    destruct (len (historial_salida (hist s)) <? max_points)%nat eqn:E.
    + apply Nat.ltb_lt in E. lia.
    + apply Nat.ltb_ge in E. lia.
Qed.

Lemma last_no_vacia {A : Type} (l : list A) (x d d' : A) :
  last (x :: l) d = last (x :: l) d'.
Proof.
  revert x. induction l as [|y l IH]; intros x; [reflexivity|].
  change (last (y :: l) d = last (y :: l) d'). apply IH.
Qed.

(** The last state of the trace is the state the run ends in. *)
Lemma traza_ejecutar (entradas : list entrada) :
  forall s t,
    traza s entradas = Ok t ->
    ejecutar s entradas = Ok (last t s)
    /\ length t = S (length entradas).
Proof.
  induction entradas as [|[p vn] resto IH]; intros s t H.
  - cbn in H. injection H as <-. split; reflexivity.
  - cbn [traza] in H. cbn [ejecutar].
    destruct (actualizar_sistema s p vn) as [s'|e|]; cbn [bind] in *;
      [|discriminate|discriminate].
    destruct (traza s' resto) as [t'|e|] eqn:Et; cbn [bind] in *;
      [|discriminate|discriminate].
    injection H as <-.
    destruct (IH s' t' Et) as [He Hl].
    split; [|cbn; rewrite Hl; reflexivity].
    rewrite He. f_equal.
    destruct t' as [|x t'']; [discriminate Hl|].
    change (last (x :: t'') s' = last (x :: t'') s). apply last_no_vacia.
Qed.

(** ** The first tick, evaluated *)

(** From the constructed object (70 km/h, target 80 km/h, no disturbance):
    the error is 1 V, that is 10 km/h; [P = 5.2 * 10], [D = 0.8 * 100], the
    predictive term is [6 * 7.8]; the sum 178.8 is limited to 20, and the
    RPM rise by [20 * 23.4 * 0.1]. *)
Example primer_tick :
  let r := actualizar_sistema __init__ 0 (Some 80) in
  observar error_volts r = Some 1
  /\ observar senal_control_interna r = Some 20
  /\ observar senal_control_volts r = Some (Qred 4.5)
  /\ observar rpm_ctrl r = Some (Qred 4858.8)
  /\ observar rpm_reales r = Some (Qred 4858.8)
  /\ observar velocidad_actual r = Some (97176 # 1375)
  /\ observar integral r = Some 0
  /\ observar tendencia r = Some 0.
Proof. vm_compute. repeat split. Qed.

Example primer_tick_control :
  exists salida s,
    calcular_control_proporcional_inteligente __init__ 1 = Ok (salida, s)
    /\ sc_P salida == 52 /\ sc_I salida == 0 /\ sc_D salida == 80
    /\ sc_accion_correctiva salida == 46.8 /\ sc_control salida == 20.
Proof. eexists _, _. split; [vm_compute; reflexivity|]. repeat split. Qed.

(** With the target lowered to 60 km/h the object is above the band and
    the command reaches the lower end of the range [[-30, 5]]. *)
Example primer_tick_objetivo_60 :
  observar senal_control_interna (actualizar_sistema __init__ 0 (Some 60))
  = Some (-30).
Proof. vm_compute. reflexivity. Qed.

(** The disturbance 200 RPM reaches the plant as 60 RPM. *)
Example primer_tick_perturbado :
  let r := actualizar_sistema __init__ 200 None in
  observar rpm_ctrl r = Some (Qred 4858.8) /\ observar rpm_reales r = Some (Qred 4918.8).
Proof. vm_compute. repeat split. Qed.

(** * Properties of the specification *)

(** C1.  Along every run from the constructed object, whatever the
    disturbances and targets supplied, every tick completes and every state
    met has [velocidad_actual] inside [[velocidad_min, velocidad_max]],
    which is [[50, 100]]. *)
Theorem velocidad_actual_en_limites (entradas : list entrada) :
  exists t,
    traza __init__ entradas = Ok t
    /\ Forall (fun s =>
         velocidad_min (par s) = 50 /\ velocidad_max (par s) = 100
         /\ velocidad_min (par s) <= velocidad_actual (var s)
            <= velocidad_max (par s)) t.
Proof.
  destruct (traza_invariante entradas __init__ invariante_init)
    as (t & Ht & Hall).
  exists t. split; [exact Ht|].
  eapply Forall_impl; [|exact Hall].
  intros s [Hpar _ Hv _ _ _]. rewrite Hpar. cbn.
  split; [reflexivity|]. split; [reflexivity|]. exact Hv.
Qed.

(** C2.  Along every run from the constructed object, every tick completes
    and every state met has both [rpm_ctrl] and [rpm_reales] inside
    [[4700, 6300]]. *)
Theorem rpm_en_limites (entradas : list entrada) :
  exists t,
    traza __init__ entradas = Ok t
    /\ Forall (fun s =>
         4700 <= rpm_ctrl (var s) <= 6300
         /\ 4700 <= rpm_reales (var s) <= 6300) t.
Proof.
  destruct (traza_invariante entradas __init__ invariante_init)
    as (t & Ht & Hall).
  exists t. split; [exact Ht|].
  eapply Forall_impl; [|exact Hall].
  intros s [_ _ _ Hrc Hrr _]. split; assumption.
Qed.

(** C3.  From the constructed object, whose integral is 0, every state met
    along every run has [|integral| <= 2]; and from each such state the next
    tick sets the integral to the accumulated value clamped to [[-2, 2]]
    when the object is in range with [|error_kmh| < 1], and to 0.9 times the
    old value otherwise. *)
Theorem integral_acotada (entradas : list entrada) :
  integral (var __init__) = 0
  /\ exists t,
       traza __init__ entradas = Ok t
       /\ Forall (fun s =>
            Qabs (integral (var s)) <= 2
            /\ forall p vn, exists s' ek,
                 actualizar_sistema s p vn = Ok s'
                 /\ error_volts_a_kmh (entrada_control s vn)
                      (error_volts_de s vn) = Ok ek
                 /\ integral (var s') =
                    (if esta_en_rango_objetivo (entrada_control s vn)
                        && Qltb (Qabs ek) 1
                     then clip (integral (var s) + ek * dt (par s) * 0.02)
                               (-2) 2
                     else integral (var s) * 0.9)) t.
Proof.
  split; [reflexivity|].
  destruct (traza_invariante entradas __init__ invariante_init)
    as (t & Ht & Hall).
  exists t. split; [exact Ht|].
  eapply Forall_impl; [|exact Hall].
  intros s Hs. split; [exact (inv_integral s Hs)|].
  intros p vn.
  destruct (actualizar_sistema_detalle s p vn Hs)
    as (s' & ek & Hs' & Hek & Hint & _).
  exists s', ek. split; [exact Hs'|]. split; [exact Hek|].
  exact Hint.
Qed.

(** ** The control law *)

Lemma esta_en_rango_objetivo_true (s : SistemaControlMotor) :
  esta_en_rango_objetivo s = true <->
  velocidad_nominal (var s) + rango_offset_min (par s)
    <= velocidad_actual (var s)
    <= velocidad_nominal (var s) + rango_offset_max (par s).
Proof.
  unfold esta_en_rango_objetivo, get_rango_objetivo.
  rewrite andb_true_iff, !Qle_bool_iff. reflexivity.
Qed.

Lemma fuera_de_margen (v n m : Q) :
  Qgtb v (n + m) || Qltb v (n - m) = true <-> m < Qabs (v - n).
Proof.
  rewrite orb_true_iff, Qgtb_gt, Qltb_lt. split.
  - intros [H | H].
    + apply Qlt_le_trans with (v - n); [lra | apply Qle_Qabs].
    + apply Qlt_le_trans with (- (v - n)); [lra|].
      rewrite <- Qabs_opp. apply Qle_Qabs.
  - intros H. revert H. apply Qabs_case; intros H0 H; [left | right]; lra.
Qed.

(** C4.  On an object with [dt > 0], a sensor voltage range of non-zero
    width and a band whose lower offset is not above the upper one, the
    controller returns, and its proportional term is:
    [(Kp * 1.5) * (velocidad_nominal - velocidad_actual)] above the band,
    [(Kp * 1.3) * (velocidad_nominal - velocidad_actual)] below it, and
    inside it [Kp * error_kmh], with [Kp] multiplied by 0.7 exactly when
    [|velocidad_actual - velocidad_nominal| > 0.3]. *)
Theorem proporcional_por_zonas (s : SistemaControlMotor) (ev : Q) :
  0 < dt (par s) ->
  ~ vss_volt_max (par s) == vss_volt_min (par s) ->
  rango_offset_min (par s) <= rango_offset_max (par s) ->
  exists salida s' error_kmh_l,
    calcular_control_proporcional_inteligente s ev = Ok (salida, s')
    /\ error_volts_a_kmh s ev = Ok error_kmh_l
    /\ let v := velocidad_actual (var s) in
       let n := velocidad_nominal (var s) in
       let rango_min := fst (get_rango_objetivo s) in
       let rango_max := snd (get_rango_objetivo s) in
       (rango_max < v -> sc_P salida = (Kp (par s) * 1.5) * (n - v))
       /\ (v < rango_min -> sc_P salida = (Kp (par s) * 1.3) * (n - v))
       /\ (rango_min <= v <= rango_max -> 0.3 < Qabs (v - n) ->
           sc_P salida = (Kp (par s) * 0.7) * error_kmh_l)
       /\ (rango_min <= v <= rango_max -> Qabs (v - n) <= 0.3 ->
           sc_P salida = Kp (par s) * error_kmh_l).
Proof.
  intros Hdt Hv Hoff.
  destruct (calcular_control_ok s ev Hdt Hv)
    as (ek & t & d & Hek & Ht & Hd & Hc).
  eexists _, _, ek. split; [exact Hc|]. split; [exact Hek|].
  cbn [sc_P get_rango_objetivo fst snd].
  unfold proporcional_adaptativo. cbn [get_rango_objetivo].
  destruct (esta_en_rango_objetivo s) eqn:Er; cbn [negb].
  - apply esta_en_rango_objetivo_true in Er.
    destruct (Qgtb (velocidad_actual (var s)) (velocidad_nominal (var s) + 0.3)
              || Qltb (velocidad_actual (var s))
                      (velocidad_nominal (var s) - 0.3)) eqn:Em.
    + apply fuera_de_margen in Em.
      repeat split; intros; try reflexivity; exfalso; lra.
    + assert (Hm : ~ 0.3 < Qabs (velocidad_actual (var s)
                                  - velocidad_nominal (var s))).
      { intros H. apply fuera_de_margen in H. congruence. }
      repeat split; intros; try reflexivity; exfalso; lra.
  - assert (Hr : ~ (velocidad_nominal (var s) + rango_offset_min (par s)
                      <= velocidad_actual (var s)
                      <= velocidad_nominal (var s) + rango_offset_max (par s))).
    { intros H. apply esta_en_rango_objetivo_true in H. congruence. }
    destruct (Qgtb (velocidad_actual (var s))
                   (velocidad_nominal (var s) + rango_offset_max (par s)))
      eqn:Eg.
    + apply Qgtb_gt in Eg.
      repeat split; intros; try reflexivity; exfalso; lra.
    + apply Qgtb_le in Eg.
      repeat split; intros; try reflexivity; exfalso; lra.
Qed.

Lemma proporcional_por_zonas_witness :
  exists salida s' error_kmh_l,
    calcular_control_proporcional_inteligente __init__ 1 = Ok (salida, s')
    /\ error_volts_a_kmh __init__ 1 = Ok error_kmh_l
    /\ let v := velocidad_actual (var __init__) in
       let n := velocidad_nominal (var __init__) in
       let rango_min := fst (get_rango_objetivo __init__) in
       let rango_max := snd (get_rango_objetivo __init__) in
       (rango_max < v -> sc_P salida = (Kp (par __init__) * 1.5) * (n - v))
       /\ (v < rango_min -> sc_P salida = (Kp (par __init__) * 1.3) * (n - v))
       /\ (rango_min <= v <= rango_max -> 0.3 < Qabs (v - n) ->
           sc_P salida = (Kp (par __init__) * 0.7) * error_kmh_l)
       /\ (rango_min <= v <= rango_max -> Qabs (v - n) <= 0.3 ->
           sc_P salida = Kp (par __init__) * error_kmh_l).
Proof.
  apply (proporcional_por_zonas __init__ 1).
  - reflexivity.
  - intros H. discriminate H.
  - discriminate.
Defined.

(** C5.  On an object with [dt > 0] and a sensor voltage range of non-zero
    width the controller returns its four terms, computed from the state:
    [P] by the proportional block on the converted error, [I] as [Ki] times
    the new integral, [D] as [Kd] times the error difference over [dt], and
    the predictive term on the trend.  The command it returns is their sum
    clamped to one of three ranges chosen by [velocidad_actual]: [[-30, 5]]
    above [rango_max + 0.2], [[-5, 20]] below [rango_min - 0.2] and the
    symmetric [[-25, 25]] otherwise.  The first range is narrower than the
    third and leans to negative commands (at most 5 upwards), the second is
    narrower and leans to positive ones (at most 5 downwards). *)
Theorem limitacion_por_zonas (s : SistemaControlMotor) (ev : Q) :
  0 < dt (par s) ->
  ~ vss_volt_max (par s) == vss_volt_min (par s) ->
  exists salida s' error_kmh_l tendencia_l derivativo_l,
    calcular_control_proporcional_inteligente s ev = Ok (salida, s')
    /\ error_kmh_l = ev * escala_de s
    /\ tendencia_l
       = (if (2 <=? len (historial_salida (hist s)))%nat
          then (velocidad_actual (var s) - velocidad_anterior (var s))
               / dt (par s)
          else tendencia (var s))
    /\ derivativo_l
       = (error_kmh_l - error_anterior_kmh (var s)) / dt (par s)
    /\ sc_P salida = proporcional_adaptativo s error_kmh_l
    /\ sc_I salida = Ki (par s) * integral_limitada s error_kmh_l
    /\ sc_D salida = Kd (par s) * derivativo_l
    /\ sc_accion_correctiva salida = accion_correctiva_de s tendencia_l
    /\ let v := velocidad_actual (var s) in
       let rango_min := fst (get_rango_objetivo s) in
       let rango_max := snd (get_rango_objetivo s) in
       let suma := control_sumado s error_kmh_l tendencia_l derivativo_l in
       suma
       = sc_P salida + sc_I salida + sc_D salida + sc_accion_correctiva salida
       /\ (rango_max + 0.2 < v ->
           sc_control salida = clip suma (-30) 5
           /\ -30 <= sc_control salida <= 5)
       /\ (v <= rango_max + 0.2 -> v < rango_min - 0.2 ->
           sc_control salida = clip suma (-5) 20
           /\ -5 <= sc_control salida <= 20)
       /\ (rango_min - 0.2 <= v <= rango_max + 0.2 ->
           sc_control salida = clip suma (-25) 25
           /\ -25 <= sc_control salida <= 25).
Proof.
  intros Hdt Hv.
  destruct (calcular_control_ok s ev Hdt Hv)
    as (ek & t & d & Hek & Ht & Hd & Hc).
  rewrite error_volts_a_kmh_ok in Hek by exact Hv. injection Hek as Hek.
  rewrite calcular_tendencia_ok in Ht by exact Hdt. injection Ht as Ht.
  rewrite derivativo_ok in Hd by exact Hdt. injection Hd as Hd.
  eexists _, _, ek, t, d. split; [exact Hc|].
  split; [symmetry; exact Hek|]. split; [symmetry; exact Ht|].
  split; [symmetry; exact Hd|].
  cbn [sc_control sc_P sc_I sc_D sc_accion_correctiva get_rango_objetivo
       fst snd].
  split; [reflexivity|]. split; [reflexivity|]. split; [reflexivity|].
  split; [reflexivity|]. split; [reflexivity|].
  unfold limitacion_inteligente. cbn [get_rango_objetivo].
  destruct (Qgtb (velocidad_actual (var s))
              (velocidad_nominal (var s) + rango_offset_max (par s) + 0.2))
    eqn:Ea.
  - apply Qgtb_gt in Ea.
    repeat split; intros; try reflexivity; try (exfalso; lra);
      apply clip_bounds; discriminate.
  - apply Qgtb_le in Ea.
    destruct (Qltb (velocidad_actual (var s))
                (velocidad_nominal (var s) + rango_offset_min (par s) - 0.2))
      eqn:Eb.
    + apply Qltb_lt in Eb.
      repeat split; intros; try reflexivity; try (exfalso; lra);
        apply clip_bounds; discriminate.
    + apply Qltb_ge in Eb.
      repeat split; intros; try reflexivity; try (exfalso; lra);
        apply clip_bounds; discriminate.
Qed.

Lemma limitacion_por_zonas_witness :
  exists salida s' error_kmh_l tendencia_l derivativo_l,
    calcular_control_proporcional_inteligente __init__ 1 = Ok (salida, s')
    /\ error_kmh_l = 1 * escala_de __init__
    /\ tendencia_l
       = (if (2 <=? len (historial_salida (hist __init__)))%nat
          then (velocidad_actual (var __init__) - velocidad_anterior (var __init__))
               / dt (par __init__)
          else tendencia (var __init__))
    /\ derivativo_l
       = (error_kmh_l - error_anterior_kmh (var __init__)) / dt (par __init__)
    /\ sc_P salida = proporcional_adaptativo __init__ error_kmh_l
    /\ sc_I salida = Ki (par __init__) * integral_limitada __init__ error_kmh_l
    /\ sc_D salida = Kd (par __init__) * derivativo_l
    /\ sc_accion_correctiva salida = accion_correctiva_de __init__ tendencia_l
    /\ let v := velocidad_actual (var __init__) in
       let rango_min := fst (get_rango_objetivo __init__) in
       let rango_max := snd (get_rango_objetivo __init__) in
       let suma := control_sumado __init__ error_kmh_l tendencia_l derivativo_l in
       suma
       = sc_P salida + sc_I salida + sc_D salida + sc_accion_correctiva salida
       /\ (rango_max + 0.2 < v ->
           sc_control salida = clip suma (-30) 5
           /\ -30 <= sc_control salida <= 5)
       /\ (v <= rango_max + 0.2 -> v < rango_min - 0.2 ->
           sc_control salida = clip suma (-5) 20
           /\ -5 <= sc_control salida <= 20)
       /\ (rango_min - 0.2 <= v <= rango_max + 0.2 ->
           sc_control salida = clip suma (-25) 25
           /\ -25 <= sc_control salida <= 25).
Proof.
  apply (limitacion_por_zonas __init__ 1).
  - reflexivity.
  - intros H. discriminate H.
Defined.

(** ** Disturbance shaping *)

Lemma clip_clip (x lo hi : Q) :
  lo <= hi -> clip (clip x lo hi) lo hi == clip x lo hi.
Proof.
  intros H. apply clip_id. apply clip_bounds. exact H.
Qed.

Lemma aplicar_perturbacion_atenuada_comp (s : SistemaControlMotor) (x y : Q) :
  clip x (-100) 200 == clip y (-100) 200 ->
  aplicar_perturbacion_atenuada s x == aplicar_perturbacion_atenuada s y.
Proof.
  intros H. unfold aplicar_perturbacion_atenuada. rewrite H. reflexivity.
Qed.

(** C6, as stated, fails: shaping 200 gives 60, and shaping 60 gives 18. *)
Lemma aplicar_perturbacion_atenuada_no_idempotente :
  aplicar_perturbacion_atenuada __init__ 200 == 60
  /\ aplicar_perturbacion_atenuada __init__
       (aplicar_perturbacion_atenuada __init__ 200) == 18
  /\ ~ aplicar_perturbacion_atenuada __init__
         (aplicar_perturbacion_atenuada __init__ 200)
       == aplicar_perturbacion_atenuada __init__ 200.
Proof.
  split; [reflexivity|]. split; [reflexivity|].
  intros H. discriminate H.
Qed.

(** C6, amended.  The clamp of the shaper is idempotent, so shaping a value
    already clamped to [[-100, 200]] gives what shaping the raw value gives;
    with the attenuation factor 0.3 of the constructor a second shaping
    attenuates once more: it is 0.3 times the first. *)
Theorem aplicar_perturbacion_atenuada_tras_clip (s : SistemaControlMotor) (x : Q) :
  clip (clip x (-100) 200) (-100) 200 == clip x (-100) 200
  /\ aplicar_perturbacion_atenuada s (clip x (-100) 200)
     == aplicar_perturbacion_atenuada s x
  /\ aplicar_perturbacion_atenuada __init__
       (aplicar_perturbacion_atenuada __init__ x)
     == 0.3 * aplicar_perturbacion_atenuada __init__ x.
Proof.
  assert (Hc : clip (clip x (-100) 200) (-100) 200 == clip x (-100) 200)
    by (apply clip_clip; discriminate).
  split; [exact Hc|]. split.
  - apply aplicar_perturbacion_atenuada_comp. exact Hc.
  - unfold aplicar_perturbacion_atenuada.
    cbn [par __init__ fold_left seq inicializar_historiales
         factor_atenuacion_perturbacion parametros_iniciales].
    destruct (clip_bounds x (-100) 200) as [Hlo Hhi]; [discriminate|].
    rewrite (clip_id (clip x (-100) 200 * 0.3)) by (split; lra).
    ring.
Qed.

(** ** The sensor conversions *)

Lemma velocidad_a_voltaje_sin_saturar (s : SistemaControlMotor) (v : Q) :
  vss_vel_min (par s) < vss_vel_max (par s) ->
  vss_volt_min (par s) < vss_volt_max (par s) ->
  vss_vel_min (par s) <= v <= vss_vel_max (par s) ->
  velocidad_a_voltaje s v ==
  ((v - vss_vel_min (par s)) / (vss_vel_max (par s) - vss_vel_min (par s)))
  * (vss_volt_max (par s) - vss_volt_min (par s)) + vss_volt_min (par s).
Proof.
  intros Hvel Hvolt [Hlo Hhi]. unfold velocidad_a_voltaje.
  destruct (Qeq_bool (vss_vel_max (par s)) (vss_vel_min (par s))) eqn:E.
  { apply Qeq_bool_eq in E. lra. }
  apply clip_id.
  set (a := vss_vel_min (par s)) in *. set (b := vss_vel_max (par s)) in *.
  set (c := vss_volt_min (par s)) in *. set (d := vss_volt_max (par s)) in *.
  assert (H0 : 0 <= (v - a) / (b - a)).
  { apply Qle_shift_div_l; lra. }
  assert (H1 : (v - a) / (b - a) <= 1).
  { apply Qle_shift_div_r; lra. }
  split.
  - assert (0 <= (v - a) / (b - a) * (d - c)) by (apply Qmult_le_0_compat; lra).
    lra.
  - assert (0 <= (1 - (v - a) / (b - a)) * (d - c))
      by (apply Qmult_le_0_compat; lra).
    assert ((1 - (v - a) / (b - a)) * (d - c)
            == (d - c) - (v - a) / (b - a) * (d - c)) by ring.
    lra.
Qed.

Lemma ida_y_vuelta_general (s : SistemaControlMotor) (v : Q) :
  vss_vel_min (par s) < vss_vel_max (par s) ->
  vss_volt_min (par s) < vss_volt_max (par s) ->
  vss_vel_min (par s) <= v <= vss_vel_max (par s) ->
  voltaje_a_velocidad s (velocidad_a_voltaje s v) == v.
Proof.
  intros Hvel Hvolt Hv.
  unfold voltaje_a_velocidad.
  destruct (Qeq_bool (vss_volt_max (par s)) (vss_volt_min (par s))) eqn:E.
  { apply Qeq_bool_eq in E. lra. }
  rewrite (velocidad_a_voltaje_sin_saturar s v Hvel Hvolt Hv).
  field. split; intros H; lra.
Qed.

(** C7.  With the sensor ranges of the constructor, [[50, 100]] km/h onto
    [[0, 5]] V, converting a speed of the range to a voltage and back gives
    the speed again (as rationals). *)
Theorem ida_y_vuelta_velocidad (s : SistemaControlMotor) (v : Q) :
  par s = parametros_iniciales ->
  50 <= v <= 100 ->
  vss_vel_min (par s) = 50 /\ vss_vel_max (par s) = 100
  /\ voltaje_a_velocidad s (velocidad_a_voltaje s v) == v.
Proof.
  intros Hpar Hv.
  split; [rewrite Hpar; reflexivity|].
  split; [rewrite Hpar; reflexivity|].
  apply ida_y_vuelta_general; rewrite Hpar; cbn;
    [reflexivity | reflexivity | exact Hv].
Qed.

Lemma ida_y_vuelta_velocidad_witness :
  vss_vel_min (par __init__) = 50 /\ vss_vel_max (par __init__) = 100
  /\ voltaje_a_velocidad __init__ (velocidad_a_voltaje __init__ 72.5) == 72.5.
Proof.
  apply (ida_y_vuelta_velocidad __init__ 72.5).
  - reflexivity.
  - split; discriminate.
Defined.

(** ** The time step *)

(** A failure of the controller is a failure of the unit conversion or of
    the trend estimate. *)
Lemma calcular_control_error (s : SistemaControlMotor) (ev : Q) (e : excepcion) :
  calcular_control_proporcional_inteligente s ev = Error e ->
  error_volts_a_kmh s ev = Error e \/ calcular_tendencia s = Error e.
Proof.
  unfold calcular_control_proporcional_inteligente.
  destruct (error_volts_a_kmh s ev) as [ek|e1|]; cbn [bind].
  - destruct (calcular_tendencia s) as [t|e2|]; cbn [bind].
    + destruct (Qlt_le_dec 0 (dt (par s))) as [Hdt | Hdt].
      * rewrite derivativo_ok by exact Hdt. cbn [bind]. discriminate.
      * rewrite derivativo_sin_division by exact Hdt. cbn [bind]. discriminate.
    + intros H. right. congruence.
    + discriminate.
  - intros H. left. congruence.
  - discriminate.
Qed.

(** C8.  The derivative block never divides by zero: with [dt = 0] (and with
    any [dt <= 0]) it yields 0, with [dt > 0] it yields the quotient, so it
    yields a value for every [dt]; when the controller fails, the failure
    comes from the unit conversion or from the trend estimate. *)
Theorem derivativo_total (s : SistemaControlMotor) (error_kmh_l : Q) :
  (dt (par s) == 0 -> derivativo s error_kmh_l = Ok 0)
  /\ (dt (par s) <= 0 -> derivativo s error_kmh_l = Ok 0)
  /\ (0 < dt (par s) ->
      derivativo s error_kmh_l =
      Ok ((error_kmh_l - error_anterior_kmh (var s)) / dt (par s)))
  /\ (exists d, derivativo s error_kmh_l = Ok d)
  /\ (forall ev e,
        calcular_control_proporcional_inteligente s ev = Error e ->
        error_volts_a_kmh s ev = Error e \/ calcular_tendencia s = Error e).
Proof.
  split; [|split; [|split; [|split]]].
  - intros H. apply derivativo_sin_division. lra.
  - apply derivativo_sin_division.
  - apply derivativo_ok.
  - destruct (Qlt_le_dec 0 (dt (par s))) as [Hdt | Hdt].
    + eexists. apply derivativo_ok. exact Hdt.
    + exists 0. apply derivativo_sin_division. exact Hdt.
  - apply calcular_control_error.
Qed.

Lemma derivativo_total_witness :
  dt (par (asignar_dt __init__ 0)) == 0
  /\ derivativo (asignar_dt __init__ 0) 10 = Ok 0.
Proof.
  split; [reflexivity|].
  apply (proj1 (derivativo_total (asignar_dt __init__ 0) 10)).
  reflexivity.
Defined.

(** The trend estimate divides by [dt] without a guard: with [dt]
    overwritten to 0 on the object as constructed, whose speeds are Python
    numbers, it raises. *)
Lemma tendencia_divide_por_cero :
  calcular_tendencia (asignar_dt __init__ 0) = Error ZeroDivisionError.
Proof. vm_compute. reflexivity. Qed.

(** So does the first tick of that object. *)
Lemma dt_cero_primer_tick :
  actualizar_sistema (asignar_dt __init__ 0) 0 None
  = Error ZeroDivisionError.
Proof. vm_compute. reflexivity. Qed.

(** After one tick the speed is a NumPy scalar: with [dt] overwritten to 0
    then, the next tick raises nothing and leaves the rationals. *)
Lemma dt_cero_segundo_tick :
  (s <- actualizar_sistema __init__ 0 None ;;
   actualizar_sistema (asignar_dt s 0) 0 None)
  = NoFinito.
Proof. vm_compute. reflexivity. Qed.

(** With a negative [dt] the tick returns a state. *)
Lemma dt_negativo_primer_tick :
  exists s, actualizar_sistema (asignar_dt __init__ (-0.1)) 0 None = Ok s.
Proof. eexists. vm_compute. reflexivity. Qed.

(** X28.  The constructor takes no time step: it builds the object with
    [dt = 0.1 > 0]; no tick changes [dt], and every run from the constructed
    object completes, no tick dividing by zero. *)
Theorem dt_del_constructor (entradas : list entrada) :
  dt (par __init__) = 0.1
  /\ 0 < dt (par __init__)
  /\ exists s, ejecutar __init__ entradas = Ok s /\ dt (par s) = 0.1.
Proof.
  split; [reflexivity|]. split; [reflexivity|].
  destruct (ejecutar_invariante entradas __init__ invariante_init)
    as (s & Hs & Hinv).
  exists s. split; [exact Hs|].
  rewrite (inv_par s Hinv). reflexivity.
Qed.

(** ** The histories *)

Lemma longitudes_ok (h : Historiales) :
  historiales_ok h -> Forall (fun n => (5 <= n <= 150)%nat) (longitudes h).
Proof.
  unfold historiales_ok, historial_ok, longitudes, max_points.
  intros H. decompose [and] H.
  repeat (constructor; [lia|]). constructor.
Qed.

(** C10.  The constructor leaves five samples in each of the fifteen
    deques; along every run every deque holds between 5 and 150 samples, so
    the guard [len(historial_salida) >= 2] holds at every tick, the output
    history grows by one up to its capacity, and every tick sets
    [tendencia] to [(velocidad_actual - velocidad_anterior) / dt] from the
    values at its start. *)
Theorem tendencia_en_cada_tick (entradas : list entrada) :
  longitudes (hist __init__) = repeat 5%nat 15
  /\ exists t,
       traza __init__ entradas = Ok t
       /\ Forall (fun s =>
            Forall (fun n => (5 <= n <= 150)%nat) (longitudes (hist s))
            /\ (2 <=? len (historial_salida (hist s)))%nat = true
            /\ forall p vn, exists s',
                 actualizar_sistema s p vn = Ok s'
                 /\ len (historial_salida (hist s')) =
                    Nat.min (S (len (historial_salida (hist s)))) 150
                 /\ tendencia (var s') =
                    (velocidad_actual (var s) - velocidad_anterior (var s))
                    / dt (par s)) t.
Proof.
  split; [reflexivity|].
  destruct (traza_invariante entradas __init__ invariante_init)
    as (t & Ht & Hall).
  exists t. split; [exact Ht|].
  eapply Forall_impl; [|exact Hall].
  intros s Hs. split; [|split].
  - apply longitudes_ok. exact (inv_hist s Hs).
  - destruct (inv_hist s Hs) as (_ & _ & (_ & Hl) & _).
    apply Nat.leb_le. lia.
  - intros p vn.
    destruct (actualizar_sistema_invariante s p vn Hs)
      as (s' & Hs' & _ & Htend & _).
    destruct (actualizar_sistema_detalle s p vn Hs)
      as (s'' & ek & Hs'' & _ & _ & Hlen).
    assert (s'' = s') by congruence. subst s''.
    exists s'. split; [exact Hs'|]. split; [exact Hlen | exact Htend].
Qed.

(** * Further properties of the code *)

(** ** Clipping *)

Lemma clip_monotona (x y lo hi : Q) :
  x <= y -> clip x lo hi <= clip y lo hi.
Proof.
  intros H. unfold clip.
  apply Q.min_le_compat_r. apply Q.max_le_compat_r. exact H.
Qed.

Lemma clip_comp (x y lo hi : Q) : x == y -> clip x lo hi == clip y lo hi.
Proof.
  intros H. apply Qle_antisym; apply clip_monotona; rewrite H; apply Qle_refl.
Qed.

Lemma clip_abajo (x lo hi : Q) : lo <= hi -> x <= lo -> clip x lo hi == lo.
Proof.
  intros H Hx. unfold clip.
  rewrite (Q.max_r x lo) by exact Hx. apply Q.min_l. exact H.
Qed.

Lemma clip_arriba (x lo hi : Q) : lo <= hi -> hi <= x -> clip x lo hi == hi.
Proof.
  intros H Hx. unfold clip.
  apply Q.min_r. apply Qle_trans with x; [exact Hx | apply Q.le_max_l].
Qed.

(** [clip] moves a value of the range by no more than its argument moved. *)
Lemma clip_desplazado (x d lo hi : Q) :
  lo <= x <= hi ->
  Qabs (clip (x + d) lo hi - x) <= Qabs d.
Proof.
  intros [Hlo Hhi].
  assert (Hb : lo <= clip (x + d) lo hi <= hi)
    by (apply clip_bounds; lra).
  destruct (Qlt_le_dec 0 d) as [Hd | Hd].
  - assert (H1 : clip x lo hi <= clip (x + d) lo hi)
      by (apply clip_monotona; lra).
    rewrite (clip_id x lo hi) in H1 by (split; assumption).
    assert (H2 : clip (x + d) lo hi <= x + d).
    { unfold clip. apply Qle_trans with (Qmax (x + d) lo);
        [apply Q.le_min_l|]. apply Q.max_lub; lra. }
    rewrite Qabs_pos by lra. rewrite (Qabs_pos d) by lra. lra.
  - assert (H1 : clip (x + d) lo hi <= clip x lo hi)
      by (apply clip_monotona; lra).
    rewrite (clip_id x lo hi) in H1 by (split; assumption).
    assert (H2 : x + d <= clip (x + d) lo hi).
    { unfold clip. apply Q.min_glb; [apply Q.le_max_l | lra]. }
    rewrite Qabs_neg by lra. rewrite (Qabs_neg d) by lra. lra.
Qed.

(** ** The sensor conversions, beyond the sensor range *)

Lemma voltaje_a_velocidad_comp (s : SistemaControlMotor) (x y : Q) :
  x == y -> voltaje_a_velocidad s x == voltaje_a_velocidad s y.
Proof.
  intros H. unfold voltaje_a_velocidad.
  destruct (Qeq_bool (vss_volt_max (par s)) (vss_volt_min (par s)));
    [reflexivity|].
  rewrite H. reflexivity.
Qed.

Lemma velocidad_a_voltaje_acotado (s : SistemaControlMotor) (v : Q) :
  vss_volt_min (par s) <= vss_volt_max (par s) ->
  ~ vss_vel_max (par s) == vss_vel_min (par s) ->
  vss_volt_min (par s) <= velocidad_a_voltaje s v <= vss_volt_max (par s).
Proof.
  intros Hvolt H. unfold velocidad_a_voltaje.
  destruct (Qeq_bool (vss_vel_max (par s)) (vss_vel_min (par s))) eqn:E.
  - apply Qeq_bool_eq in E. contradiction.
  - apply clip_bounds. exact Hvolt.
Qed.

Lemma velocidad_a_voltaje_creciente (s : SistemaControlMotor) (v1 v2 : Q) :
  vss_vel_min (par s) < vss_vel_max (par s) ->
  vss_volt_min (par s) <= vss_volt_max (par s) ->
  v1 <= v2 ->
  velocidad_a_voltaje s v1 <= velocidad_a_voltaje s v2.
Proof.
  intros Hvel Hvolt Hv. unfold velocidad_a_voltaje.
  destruct (Qeq_bool (vss_vel_max (par s)) (vss_vel_min (par s)));
    [apply Qle_refl|].
  apply clip_monotona.
  apply Qplus_le_compat; [|apply Qle_refl].
  apply Qmult_le_compat_r; [|lra].
  unfold Qdiv. apply Qmult_le_compat_r; [lra|].
  apply Qinv_le_0_compat. lra.
Qed.

(** X1.  [velocidad_a_voltaje] always answers with a voltage of the sensor:
    whatever the speed, also outside the sensor range, the result lies in
    [[vss_volt_min, vss_volt_max]]; on a speed range of zero width it
    answers 0 without dividing. *)
Theorem velocidad_a_voltaje_en_rango (s : SistemaControlMotor) (v : Q) :
  vss_volt_min (par s) <= vss_volt_max (par s) ->
  (vss_vel_max (par s) == vss_vel_min (par s) ->
   velocidad_a_voltaje s v = 0)
  /\ (~ vss_vel_max (par s) == vss_vel_min (par s) ->
      vss_volt_min (par s) <= velocidad_a_voltaje s v <= vss_volt_max (par s)).
Proof.
  intros Hvolt. split; intros H.
  - unfold velocidad_a_voltaje. rewrite (Qeq_eq_bool _ _ H). reflexivity.
  - apply velocidad_a_voltaje_acotado; assumption.
Qed.

Lemma velocidad_a_voltaje_en_rango_witness :
  (vss_vel_max (par __init__) == vss_vel_min (par __init__) ->
   velocidad_a_voltaje __init__ 130 = 0)
  /\ (~ vss_vel_max (par __init__) == vss_vel_min (par __init__) ->
      vss_volt_min (par __init__) <= velocidad_a_voltaje __init__ 130
      <= vss_volt_max (par __init__)).
Proof.
  apply (velocidad_a_voltaje_en_rango __init__ 130).
  discriminate.
Defined.

(** X2.  [velocidad_a_voltaje] is monotone: a higher speed never reads as a
    lower voltage (ranges in increasing order). *)
Theorem velocidad_a_voltaje_monotona (s : SistemaControlMotor) (v1 v2 : Q) :
  vss_vel_min (par s) < vss_vel_max (par s) ->
  vss_volt_min (par s) <= vss_volt_max (par s) ->
  v1 <= v2 ->
  velocidad_a_voltaje s v1 <= velocidad_a_voltaje s v2.
Proof. apply velocidad_a_voltaje_creciente. Qed.

Lemma velocidad_a_voltaje_monotona_witness :
  velocidad_a_voltaje __init__ 60 <= velocidad_a_voltaje __init__ 75.
Proof.
  apply (velocidad_a_voltaje_monotona __init__ 60 75).
  - reflexivity.
  - discriminate.
  - discriminate.
Defined.

(** X3.  Outside the sensor range the round trip saturates: for every
    speed, [voltaje_a_velocidad(velocidad_a_voltaje(v))] is [v] clipped to
    [[vss_vel_min, vss_vel_max]]. *)
Theorem ida_y_vuelta_saturada (s : SistemaControlMotor) (v : Q) :
  vss_vel_min (par s) < vss_vel_max (par s) ->
  vss_volt_min (par s) < vss_volt_max (par s) ->
  voltaje_a_velocidad s (velocidad_a_voltaje s v)
  == clip v (vss_vel_min (par s)) (vss_vel_max (par s)).
Proof.
  intros Hvel Hvolt.
  assert (Hmin : voltaje_a_velocidad s (vss_volt_min (par s))
                 == vss_vel_min (par s)).
  { unfold voltaje_a_velocidad.
    destruct (Qeq_bool (vss_volt_max (par s)) (vss_volt_min (par s))) eqn:E;
      [reflexivity|].
    field. intros H. lra. }
  assert (Hmax : voltaje_a_velocidad s (vss_volt_max (par s))
                 == vss_vel_max (par s)).
  { unfold voltaje_a_velocidad.
    destruct (Qeq_bool (vss_volt_max (par s)) (vss_volt_min (par s))) eqn:E.
    { apply Qeq_bool_eq in E. lra. }
    field. intros H. lra. }
  assert (Hlo : velocidad_a_voltaje s (vss_vel_min (par s))
                == vss_volt_min (par s)).
  { rewrite velocidad_a_voltaje_sin_saturar by (try split; lra).
    field. intros H. lra. }
  assert (Hhi : velocidad_a_voltaje s (vss_vel_max (par s))
                == vss_volt_max (par s)).
  { rewrite velocidad_a_voltaje_sin_saturar by (try split; lra).
    field. intros H. lra. }
  pose proof (velocidad_a_voltaje_acotado s v ltac:(lra) ltac:(intros H; lra))
    as Hb.
  destruct (Qlt_le_dec v (vss_vel_min (par s))) as [H1 | H1].
  - rewrite clip_abajo by lra.
    assert (Hm := velocidad_a_voltaje_creciente s v (vss_vel_min (par s))
                    Hvel ltac:(lra) ltac:(lra)).
    rewrite (voltaje_a_velocidad_comp s _ (vss_volt_min (par s))) by lra.
    exact Hmin.
  - destruct (Qlt_le_dec (vss_vel_max (par s)) v) as [H2 | H2].
    + rewrite clip_arriba by lra.
      assert (Hm := velocidad_a_voltaje_creciente s (vss_vel_max (par s)) v
                      Hvel ltac:(lra) ltac:(lra)).
      rewrite (voltaje_a_velocidad_comp s _ (vss_volt_max (par s))) by lra.
      exact Hmax.
    + rewrite clip_id by (split; assumption).
      apply ida_y_vuelta_general; try assumption. split; assumption.
Qed.

Lemma ida_y_vuelta_saturada_witness :
  voltaje_a_velocidad __init__ (velocidad_a_voltaje __init__ 130)
  == clip 130 (vss_vel_min (par __init__)) (vss_vel_max (par __init__)).
Proof.
  apply (ida_y_vuelta_saturada __init__ 130); reflexivity.
Defined.

(** X4.  The other round trip: a voltage of the sensor range converted to a
    speed and back is the same voltage. *)
Theorem vuelta_e_ida_voltaje (s : SistemaControlMotor) (u : Q) :
  ~ vss_vel_max (par s) == vss_vel_min (par s) ->
  vss_volt_min (par s) < vss_volt_max (par s) ->
  vss_volt_min (par s) <= u <= vss_volt_max (par s) ->
  velocidad_a_voltaje s (voltaje_a_velocidad s u) == u.
Proof.
  intros Hvel Hvolt Hu.
  unfold velocidad_a_voltaje, voltaje_a_velocidad.
  destruct (Qeq_bool (vss_vel_max (par s)) (vss_vel_min (par s))) eqn:E1.
  { apply Qeq_bool_eq in E1. contradiction. }
  destruct (Qeq_bool (vss_volt_max (par s)) (vss_volt_min (par s))) eqn:E2.
  { apply Qeq_bool_eq in E2. lra. }
  rewrite <- (clip_id u (vss_volt_min (par s)) (vss_volt_max (par s)))
    at 2 by exact Hu.
  apply clip_comp. field. split; intros H; [lra|].
  apply Hvel. lra.
Qed.

Lemma vuelta_e_ida_voltaje_witness :
  velocidad_a_voltaje __init__ (voltaje_a_velocidad __init__ 3.2) == 3.2.
Proof.
  apply (vuelta_e_ida_voltaje __init__ 3.2).
  - intros H. discriminate H.
  - reflexivity.
  - split; discriminate.
Defined.

(** X5.  [error_volts_a_kmh] has no guard: it fails with a division by zero
    exactly when the voltage range has zero width, the case in which
    [voltaje_a_velocidad] answers [vss_vel_min]. *)
Theorem error_volts_a_kmh_falla (s : SistemaControlMotor) (e : Q) :
  (error_volts_a_kmh s e = Error ZeroDivisionError
   <-> vss_volt_max (par s) == vss_volt_min (par s))
  /\ (vss_volt_max (par s) == vss_volt_min (par s) ->
      voltaje_a_velocidad s e = vss_vel_min (par s)).
Proof.
  split; [split|].
  - intros H.
    destruct (Qeq_dec (vss_volt_max (par s)) (vss_volt_min (par s)))
      as [E | E]; [exact E|].
    rewrite error_volts_a_kmh_ok in H by exact E. discriminate H.
  - intros H. unfold error_volts_a_kmh.
    rewrite dividir_cero by lra. reflexivity.
  - intros H. unfold voltaje_a_velocidad.
    rewrite (Qeq_eq_bool _ _ H). reflexivity.
Qed.

Lemma error_volts_a_kmh_falla_witness :
  error_volts_a_kmh sensor_sin_rango 3 = Error ZeroDivisionError
  /\ voltaje_a_velocidad sensor_sin_rango 3 = vss_vel_min (par sensor_sin_rango).
Proof.
  split.
  - apply (proj1 (error_volts_a_kmh_falla sensor_sin_rango 3)). reflexivity.
  - apply (proj2 (error_volts_a_kmh_falla sensor_sin_rango 3)). reflexivity.
Defined.

(** X6.  The error the controller works with is the speed error: for two
    speeds of the sensor range, the difference of their voltages converted
    by [error_volts_a_kmh] is the difference of the speeds. *)
Theorem error_convertido_es_diferencia
  (s : SistemaControlMotor) (v1 v2 : Q) :
  vss_vel_min (par s) < vss_vel_max (par s) ->
  vss_volt_min (par s) < vss_volt_max (par s) ->
  vss_vel_min (par s) <= v1 <= vss_vel_max (par s) ->
  vss_vel_min (par s) <= v2 <= vss_vel_max (par s) ->
  exists ek,
    error_volts_a_kmh s (velocidad_a_voltaje s v1 - velocidad_a_voltaje s v2)
    = Ok ek
    /\ ek == v1 - v2.
Proof.
  intros Hvel Hvolt H1 H2.
  eexists. split.
  - apply error_volts_a_kmh_ok. intros H. lra.
  - rewrite !velocidad_a_voltaje_sin_saturar by assumption.
    unfold escala_de. field. split; intros H; lra.
Qed.

Lemma error_convertido_es_diferencia_witness :
  exists ek,
    error_volts_a_kmh __init__
      (velocidad_a_voltaje __init__ 80 - velocidad_a_voltaje __init__ 70)
    = Ok ek
    /\ ek == 80 - 70.
Proof.
  apply (error_convertido_es_diferencia __init__ 80 70).
  - reflexivity.
  - reflexivity.
  - split; discriminate.
  - split; discriminate.
Defined.

(** ** The command as a voltage *)

Lemma senal_control_a_voltaje_inicial (s : SistemaControlMotor) (c : Q) :
  par s = parametros_iniciales ->
  0 <= senal_control_a_voltaje s c <= 5
  /\ (-25 <= c <= 25 -> senal_control_a_voltaje s c == 2.5 + c / 10)
  /\ (c <= -25 -> senal_control_a_voltaje s c == 0)
  /\ (25 <= c -> senal_control_a_voltaje s c == 5).
Proof.
  intros Hpar. unfold senal_control_a_voltaje, MAX_CTRL_INTERNA.
  rewrite Hpar.
  cbn [senal_ctrl_offset vss_volt_min vss_volt_max parametros_iniciales].
  assert (E : 2.5 / 25 == 0.1) by reflexivity.
  split; [apply clip_bounds; discriminate|].
  split; [|split]; intros H.
  - rewrite (clip_comp _ (2.5 + c / 10)).
    + apply clip_id. unfold Qdiv. change (/ 10) with 0.1. lra.
    + rewrite (clip_id c) by exact H. rewrite E.
      unfold Qdiv. change (/ 10) with 0.1. ring.
  - rewrite (clip_comp _ 0); [apply clip_id; lra|].
    rewrite (clip_abajo c) by (try discriminate; exact H). rewrite E.
    reflexivity.
  - rewrite (clip_comp _ 5); [apply clip_id; lra|].
    rewrite (clip_arriba c) by (try discriminate; exact H). rewrite E.
    reflexivity.
Qed.

(** X7.  With the constructor's parameters [senal_control_a_voltaje] is
    [2.5 + c / 10] for a command [c] of [[-25, 25]], 0 V for any command
    below and 5 V for any command above; it is always within [[0, 5]]. *)
Theorem senal_control_a_voltaje_forma (s : SistemaControlMotor) (c : Q) :
  par s = parametros_iniciales ->
  0 <= senal_control_a_voltaje s c <= 5
  /\ (-25 <= c <= 25 -> senal_control_a_voltaje s c == 2.5 + c / 10)
  /\ (c <= -25 -> senal_control_a_voltaje s c == 0)
  /\ (25 <= c -> senal_control_a_voltaje s c == 5).
Proof. apply senal_control_a_voltaje_inicial. Qed.

Lemma senal_control_a_voltaje_forma_witness :
  0 <= senal_control_a_voltaje __init__ 20 <= 5
  /\ (-25 <= 20 <= 25 -> senal_control_a_voltaje __init__ 20 == 2.5 + 20 / 10)
  /\ (20 <= -25 -> senal_control_a_voltaje __init__ 20 == 0)
  /\ (25 <= 20 -> senal_control_a_voltaje __init__ 20 == 5).
Proof.
  apply (senal_control_a_voltaje_forma __init__ 20).
  reflexivity.
Defined.

(** ** The controller, block by block *)

Lemma limitacion_inteligente_acotada (s : SistemaControlMotor) (c : Q) :
  -30 <= limitacion_inteligente s c <= 25
  /\ (limitacion_inteligente s c < -25 ->
      snd (get_rango_objetivo s) + 0.2 < velocidad_actual (var s))
  /\ (20 < limitacion_inteligente s c ->
      fst (get_rango_objetivo s) - 0.2 <= velocidad_actual (var s)
      <= snd (get_rango_objetivo s) + 0.2).
Proof.
  unfold limitacion_inteligente. cbn [get_rango_objetivo fst snd].
  destruct (Qgtb (velocidad_actual (var s))
              (velocidad_nominal (var s) + rango_offset_max (par s) + 0.2))
    eqn:Ea.
  - apply Qgtb_gt in Ea.
    destruct (clip_bounds c (-30) 5) as [H1 H2]; [discriminate|].
    repeat split; intros; lra.
  - apply Qgtb_le in Ea.
    destruct (Qltb (velocidad_actual (var s))
                (velocidad_nominal (var s) + rango_offset_min (par s) - 0.2))
      eqn:Eb.
    + apply Qltb_lt in Eb.
      destruct (clip_bounds c (-5) 20) as [H1 H2]; [discriminate|].
      repeat split; intros; lra.
    + apply Qltb_ge in Eb.
      destruct (clip_bounds c (-25) 25) as [H1 H2]; [discriminate|].
      repeat split; intros; lra.
Qed.

(** X8.  Whatever the state and the error, the command the controller
    returns lies in [[-30, 25]]; it leaves the working range [[-25, 25]]
    that [senal_control_a_voltaje] assumes only downwards, and only when
    the speed is above [rango_max + 0.2]; a command above 20 is returned
    only in the normal zone. *)
Theorem control_acotado (s : SistemaControlMotor) (ev : Q) :
  0 < dt (par s) ->
  ~ vss_volt_max (par s) == vss_volt_min (par s) ->
  exists salida s',
    calcular_control_proporcional_inteligente s ev = Ok (salida, s')
    /\ -30 <= sc_control salida <= 25
    /\ (sc_control salida < -25 ->
        snd (get_rango_objetivo s) + 0.2 < velocidad_actual (var s))
    /\ (20 < sc_control salida ->
        fst (get_rango_objetivo s) - 0.2 <= velocidad_actual (var s)
        <= snd (get_rango_objetivo s) + 0.2).
Proof.
  intros Hdt Hv.
  destruct (calcular_control_ok s ev Hdt Hv)
    as (ek & t & d & Hek & Ht & Hd & Hc).
  eexists _, _. split; [exact Hc|].
  cbn [sc_control]. apply limitacion_inteligente_acotada.
Qed.

Lemma control_acotado_witness :
  exists salida s',
    calcular_control_proporcional_inteligente __init__ 1 = Ok (salida, s')
    /\ -30 <= sc_control salida <= 25
    /\ (sc_control salida < -25 ->
        snd (get_rango_objetivo __init__) + 0.2
        < velocidad_actual (var __init__))
    /\ (20 < sc_control salida ->
        fst (get_rango_objetivo __init__) - 0.2
        <= velocidad_actual (var __init__)
        <= snd (get_rango_objetivo __init__) + 0.2).
Proof.
  apply (control_acotado __init__ 1).
  - reflexivity.
  - intros H. discriminate H.
Defined.

(** X9.  The predictive term is never small and non-zero: it is 0, or it is
    below -1 (projected speed above [rango_max + 0.3]), or it is above 0.6
    (projected speed below [rango_min - 0.3]). *)
Theorem accion_correctiva_salto (s : SistemaControlMotor) (tendencia_l : Q) :
  let proyectada := velocidad_actual (var s) + tendencia_l * dt (par s) in
  accion_correctiva_de s tendencia_l = 0
  \/ (snd (get_rango_objetivo s) + 0.3 < proyectada
      /\ accion_correctiva_de s tendencia_l
         == - 10 * (proyectada - (snd (get_rango_objetivo s) + 0.2))
      /\ accion_correctiva_de s tendencia_l < -1)
  \/ (proyectada < fst (get_rango_objetivo s) - 0.3
      /\ accion_correctiva_de s tendencia_l
         == 6 * (fst (get_rango_objetivo s) - 0.2 - proyectada)
      /\ 0.6 < accion_correctiva_de s tendencia_l).
Proof.
  unfold accion_correctiva_de. cbn [get_rango_objetivo fst snd].
  set (vp := velocidad_actual (var s) + tendencia_l * dt (par s)).
  destruct (Qgtb vp (velocidad_nominal (var s) + rango_offset_max (par s) + 0.3))
    eqn:Ea.
  - apply Qgtb_gt in Ea. right. left.
    split; [exact Ea|]. split; [ring | lra].
  - destruct (Qltb vp (velocidad_nominal (var s) + rango_offset_min (par s) - 0.3))
      eqn:Eb.
    + apply Qltb_lt in Eb. right. right.
      split; [exact Eb|]. split; [ring | lra].
    + left. reflexivity.
Qed.

(** X10.  Outside the band the proportional term ignores the error it is
    given and pushes back towards the target: with [Kp > 0] and a band that
    contains the target it is negative above the band and positive below. *)
Theorem proporcional_restaurador (s : SistemaControlMotor) (e1 e2 : Q) :
  0 < Kp (par s) ->
  rango_offset_min (par s) <= 0 <= rango_offset_max (par s) ->
  esta_en_rango_objetivo s = false ->
  proporcional_adaptativo s e1 = proporcional_adaptativo s e2
  /\ (snd (get_rango_objetivo s) < velocidad_actual (var s) ->
      proporcional_adaptativo s e1 < 0)
  /\ (velocidad_actual (var s) < fst (get_rango_objetivo s) ->
      0 < proporcional_adaptativo s e1).
Proof.
  intros HK Hoff Hr.
  unfold proporcional_adaptativo. cbn [get_rango_objetivo fst snd].
  rewrite Hr. cbn [negb].
  destruct (Qgtb (velocidad_actual (var s))
              (velocidad_nominal (var s) + rango_offset_max (par s))) eqn:Eg.
  - apply Qgtb_gt in Eg.
    split; [reflexivity|]. split; intros H; [|exfalso; lra].
    assert (0 < (Kp (par s) * 1.5)
                * (velocidad_actual (var s) - velocidad_nominal (var s)))
      by (apply Qmult_lt_0_compat; lra).
    lra.
  - apply Qgtb_le in Eg.
    split; [reflexivity|]. split; intros H; [exfalso; lra|].
    apply Qmult_lt_0_compat; lra.
Qed.

Lemma proporcional_restaurador_witness :
  proporcional_adaptativo __init__ 10 = proporcional_adaptativo __init__ 3
  /\ (snd (get_rango_objetivo __init__) < velocidad_actual (var __init__) ->
      proporcional_adaptativo __init__ 10 < 0)
  /\ (velocidad_actual (var __init__) < fst (get_rango_objetivo __init__) ->
      0 < proporcional_adaptativo __init__ 10).
Proof.
  apply (proporcional_restaurador __init__ 10 3).
  - reflexivity.
  - split; discriminate.
  - reflexivity.
Defined.

(** ** One tick, attribute by attribute *)

Lemma actualizar_sistema_campos
  (s : SistemaControlMotor) (p : Q) (vn : option Q) :
  invariante s ->
  exists s' salida s1,
    actualizar_sistema s p vn = Ok s'
    /\ invariante s'
    /\ calcular_control_proporcional_inteligente
         (entrada_control s vn) (error_volts_de s vn) = Ok (salida, s1)
    /\ velocidad_nominal (var s') = nominal_elegida s vn
    /\ tiempo_transcurrido (var s') = tiempo_transcurrido (var s) + dt (par s)
    /\ error_volts (var s') = error_volts_de s vn
    /\ senal_control_interna (var s') = sc_control salida
    /\ senal_control_volts (var s')
       = senal_control_a_voltaje s (sc_control salida)
    /\ rpm_ctrl (var s')
       = clip (rpm_ctrl (var s)
               + sc_control salida * ganancia_base (entrada_control s vn)
                 * dt (par s)) 4700 6300
    /\ rpm_reales (var s')
       = clip (rpm_ctrl (var s') + aplicar_perturbacion_atenuada s p)
              4700 6300
    /\ velocidad_actual (var s')
       = clip (rpm_reales (var s') / rpm_nominal (par s)
               * nominal_elegida s vn)
              (velocidad_min (par s)) (velocidad_max (par s))
    /\ retroalimentacion (var s') = velocidad_actual (var s')
    /\ error_kmh (var s') = nominal_elegida s vn - velocidad_actual (var s)
    /\ hist s'
       = actualizar_historiales
           {| par := par s; var := var s'; hist := hist s |} p
           (sc_P salida) (sc_I salida) (sc_D salida).
Proof.
  intros Hs.
  destruct (actualizar_sistema_invariante s p vn Hs) as (s' & Hs' & Hinv & _).
  pose proof (inv_par s Hs) as Hpar.
  pose proof (parametros_bien_configurados s Hpar) as Hb.
  destruct (actualizar_sistema_ok s p vn Hb)
    as (ek & t & d & s1 & control & rc & rr & v
        & Hek & Ht & Hd & Hs1 & Hcontrol & Hrc & Hrr & Hv & Hs'').
  destruct Hb as (Hdt & Hvolt & Hrpm).
  destruct (calcular_control_ok (entrada_control s vn) (error_volts_de s vn))
    as (ek' & t' & d' & Hek' & Ht' & Hd' & Hc); [exact Hdt | exact Hvolt |].
  assert (ek' = ek) by congruence. subst ek'.
  assert (t' = t) by congruence. subst t'.
  assert (d' = d) by congruence. subst d'.
  rewrite velocidad_actual_nueva_ok in Hv
    by (rewrite Hs1; cbn [par]; exact Hrpm).
  injection Hv as Hv.
  rewrite Hs'' in Hs'. injection Hs' as Hs'.
  exists s'. eexists. exists s1.
  split; [rewrite Hs''; rewrite Hs'; reflexivity|].
  split; [exact Hinv|].
  split; [rewrite Hc, Hs1; reflexivity|].
  rewrite <- Hs'.
  cbn [var hist variables_tras_dinamica velocidad_nominal tiempo_transcurrido
       error_volts senal_control_interna senal_control_volts rpm_ctrl
       rpm_reales velocidad_actual retroalimentacion error_kmh sc_control
       sc_P sc_I sc_D].
  rewrite <- Hv, Hrr, Hrc, Hcontrol, Hs1.
  repeat split.
Qed.

(** ** Reachable states *)

Lemma ejecutar_app (l1 l2 : list entrada) :
  forall s,
    ejecutar s (l1 ++ l2) = (s1 <- ejecutar s l1 ;; ejecutar s1 l2).
Proof.
  induction l1 as [|[p vn] l1 IH]; intros s; [reflexivity|].
  cbn [app ejecutar].
  destruct (actualizar_sistema s p vn) as [s'|e|]; cbn [bind];
    [apply IH | reflexivity | reflexivity].
Qed.

Lemma alcanzable_init : alcanzable __init__.
Proof. exists []. reflexivity. Qed.

Lemma alcanzable_paso (s s' : SistemaControlMotor) (p : Q) (vn : option Q) :
  alcanzable s -> actualizar_sistema s p vn = Ok s' -> alcanzable s'.
Proof.
  intros [l Hl] Hs'. exists (l ++ [(p, vn)]).
  rewrite ejecutar_app, Hl. cbn [bind ejecutar]. rewrite Hs'. reflexivity.
Qed.

Lemma alcanzable_invariante (s : SistemaControlMotor) :
  alcanzable s -> invariante s.
Proof.
  intros [l Hl].
  destruct (ejecutar_invariante l __init__ invariante_init) as (s' & Hs' & Hi).
  congruence.
Qed.

(** A property kept by every tick holds in every reachable state. *)
Lemma alcanzable_ind (P : SistemaControlMotor -> Prop) :
  P __init__ ->
  (forall s p vn s',
     alcanzable s -> P s -> actualizar_sistema s p vn = Ok s' -> P s') ->
  forall s, alcanzable s -> P s.
Proof.
  intros H0 Hstep s [l Hl]. revert s Hl.
  induction l as [|[p vn] l IH] using rev_ind; intros s Hl.
  - injection Hl as <-. exact H0.
  - rewrite ejecutar_app in Hl.
    destruct (ejecutar __init__ l) as [s0|e|] eqn:E0; cbn [bind] in Hl;
      [|discriminate|discriminate].
    cbn [ejecutar] in Hl.
    destruct (actualizar_sistema s0 p vn) as [s1|e|] eqn:E1; cbn [bind] in Hl;
      [|discriminate|discriminate].
    injection Hl as <-.
    apply (Hstep s0 p vn s1); [exists l; exact E0 | apply IH; reflexivity
                              | exact E1].
Qed.

(** The state after a run, with the number of ticks. *)
Lemma ejecutar_contado (P : nat -> SistemaControlMotor -> Prop) :
  (forall n s p vn s',
     invariante s -> P n s -> actualizar_sistema s p vn = Ok s' ->
     P (S n) s') ->
  forall entradas s n,
    invariante s -> P n s ->
    exists s',
      ejecutar s entradas = Ok s' /\ P (n + length entradas)%nat s'.
Proof.
  intros Hstep entradas.
  induction entradas as [|[p vn] resto IH]; intros s n Hs HP.
  - exists s. split; [reflexivity|]. rewrite Nat.add_0_r. exact HP.
  - destruct (actualizar_sistema_invariante s p vn Hs) as (s' & Hs' & Hi & _).
    destruct (IH s' (S n) Hi (Hstep n s p vn s' Hs HP Hs'))
      as (s'' & Hs'' & HP'').
    exists s''. split.
    + cbn [ejecutar]. rewrite Hs'. exact Hs''.
    + cbn [length]. rewrite Nat.add_succ_r. exact HP''.
Qed.

(** ** The plant in one tick *)

Lemma clip_incremento (x d lo hi : Q) :
  lo <= x <= hi ->
  (0 <= d -> 0 <= clip (x + d) lo hi - x <= d)
  /\ (d <= 0 -> d <= clip (x + d) lo hi - x <= 0).
Proof.
  intros [Hlo Hhi].
  assert (Hid : clip x lo hi == x) by (apply clip_id; split; assumption).
  assert (Hup : clip (x + d) lo hi <= Qmax (x + d) lo)
    by (unfold clip; apply Q.le_min_l).
  assert (Hdn : 0 <= d -> x + d <= hi -> x + d <= clip (x + d) lo hi).
  { intros. unfold clip. apply Q.min_glb; [apply Q.le_max_l | assumption]. }
  split; intros Hd.
  - assert (H1 : clip x lo hi <= clip (x + d) lo hi)
      by (apply clip_monotona; lra).
    assert (H2 : Qmax (x + d) lo <= x + d) by (apply Q.max_lub; lra).
    lra.
  - assert (H1 : clip (x + d) lo hi <= clip x lo hi)
      by (apply clip_monotona; lra).
    assert (H2 : x + d <= clip (x + d) lo hi).
    { unfold clip. apply Q.min_glb; [apply Q.le_max_l | lra]. }
    lra.
Qed.

Lemma aplicar_perturbacion_atenuada_forma (s : SistemaControlMotor) (p : Q) :
  par s = parametros_iniciales ->
  -30 <= aplicar_perturbacion_atenuada s p <= 60
  /\ (0 <= p -> 0 <= aplicar_perturbacion_atenuada s p)
  /\ (p <= 0 -> aplicar_perturbacion_atenuada s p <= 0)
  /\ (-100 <= p <= 200 -> aplicar_perturbacion_atenuada s p == 0.3 * p).
Proof.
  intros Hpar. unfold aplicar_perturbacion_atenuada. rewrite Hpar.
  cbn [factor_atenuacion_perturbacion parametros_iniciales].
  destruct (clip_bounds p (-100) 200) as [H1 H2]; [discriminate|].
  split; [split; lra|]. split; [|split]; intros H.
  - assert (clip 0 (-100) 200 <= clip p (-100) 200)
      by (apply clip_monotona; exact H).
    rewrite (clip_id 0) in H0 by (split; discriminate). lra.
  - assert (clip p (-100) 200 <= clip 0 (-100) 200)
      by (apply clip_monotona; exact H).
    rewrite (clip_id 0) in H0 by (split; discriminate). lra.
  - rewrite (clip_id p) by exact H. ring.
Qed.

(** X11.  The disturbance reaches the plant attenuated and bounded: with
    the constructor's factor the shaped value lies in [[-30, 60]], has the
    sign of the raw one, and for a raw value of the slider range
    [[-100, 200]] it is exactly 0.3 times it. *)
Theorem perturbacion_atenuada_acotada (s : SistemaControlMotor) (p : Q) :
  alcanzable s ->
  -30 <= aplicar_perturbacion_atenuada s p <= 60
  /\ (0 <= p -> 0 <= aplicar_perturbacion_atenuada s p)
  /\ (p <= 0 -> aplicar_perturbacion_atenuada s p <= 0)
  /\ (-100 <= p <= 200 -> aplicar_perturbacion_atenuada s p == 0.3 * p).
Proof.
  intros Hs. apply aplicar_perturbacion_atenuada_forma.
  exact (inv_par s (alcanzable_invariante s Hs)).
Qed.

Lemma perturbacion_atenuada_acotada_witness :
  -30 <= aplicar_perturbacion_atenuada __init__ 150 <= 60
  /\ (0 <= 150 -> 0 <= aplicar_perturbacion_atenuada __init__ 150)
  /\ (150 <= 0 -> aplicar_perturbacion_atenuada __init__ 150 <= 0)
  /\ (-100 <= 150 <= 200 ->
      aplicar_perturbacion_atenuada __init__ 150 == 0.3 * 150).
Proof.
  apply (perturbacion_atenuada_acotada __init__ 150).
  exists []. reflexivity.
Defined.

Lemma ganancia_base_valores (s : SistemaControlMotor) :
  ganancia_base s = 18 * 1.3 \/ ganancia_base s = 18.
Proof.
  unfold ganancia_base.
  destruct (esta_en_rango_objetivo s); [right | left]; reflexivity.
Qed.

(** X12.  The control RPM move slowly: in one tick of a reachable state
    [rpm_ctrl] falls by at most 70.2 and rises by at most 58.5, whatever
    the inputs. *)
Theorem rpm_ctrl_variacion_acotada
  (s : SistemaControlMotor) (p : Q) (vn : option Q) :
  alcanzable s ->
  exists s',
    actualizar_sistema s p vn = Ok s'
    /\ -70.2 <= rpm_ctrl (var s') - rpm_ctrl (var s) <= 58.5.
Proof.
  intros Hs. pose proof (alcanzable_invariante s Hs) as Hi.
  destruct (actualizar_sistema_campos s p vn Hi)
    as (s' & salida & s1 & Hs' & _ & Hc & _ & _ & _ & _ & _ & Hrc & _).
  exists s'. split; [exact Hs'|].
  pose proof (inv_par s Hi) as Hpar.
  destruct (calcular_control_ok (entrada_control s vn) (error_volts_de s vn))
    as (ek & t & d & _ & _ & _ & Hc').
  { cbn [entrada_control antes_del_control par]. rewrite Hpar. reflexivity. }
  { cbn [entrada_control antes_del_control par]. rewrite Hpar.
    intros H. discriminate H. }
  rewrite Hc' in Hc. injection Hc as Hsal _.
  assert (Hb : -30 <= sc_control salida <= 25).
  { rewrite <- Hsal. cbn [sc_control]. apply limitacion_inteligente_acotada. }
  rewrite Hrc, Hpar. cbn [dt parametros_iniciales].
  destruct (clip_incremento (rpm_ctrl (var s))
              (sc_control salida * ganancia_base (entrada_control s vn) * 0.1)
              4700 6300 (inv_rpm_ctrl s Hi)) as [Hpos Hneg].
  destruct (ganancia_base_valores (entrada_control s vn)) as [Eg | Eg];
    rewrite Eg in *;
    destruct (Qlt_le_dec 0 (sc_control salida)) as [H0 | H0];
    [ specialize (Hpos ltac:(lra)) | specialize (Hneg ltac:(lra))
    | specialize (Hpos ltac:(lra)) | specialize (Hneg ltac:(lra)) ];
    lra.
Qed.

Lemma rpm_ctrl_variacion_acotada_witness :
  exists s',
    actualizar_sistema __init__ 0 (Some 80) = Ok s'
    /\ -70.2 <= rpm_ctrl (var s') - rpm_ctrl (var __init__) <= 58.5.
Proof.
  apply (rpm_ctrl_variacion_acotada __init__ 0 (Some 80)).
  exists []. reflexivity.
Defined.

(** X13.  After a tick of a reachable state the real RPM differ from the
    control RPM by the shaped disturbance at most: the difference lies in
    [[-30, 60]], has the sign of the disturbance, and is zero without
    disturbance. *)
Theorem rpm_reales_cerca_de_rpm_ctrl
  (s : SistemaControlMotor) (p : Q) (vn : option Q) :
  alcanzable s ->
  exists s',
    actualizar_sistema s p vn = Ok s'
    /\ -30 <= rpm_reales (var s') - rpm_ctrl (var s') <= 60
    /\ (0 <= p -> rpm_ctrl (var s') <= rpm_reales (var s'))
    /\ (p <= 0 -> rpm_reales (var s') <= rpm_ctrl (var s'))
    /\ (p == 0 -> rpm_reales (var s') == rpm_ctrl (var s')).
Proof.
  intros Hs. pose proof (alcanzable_invariante s Hs) as Hi.
  destruct (actualizar_sistema_campos s p vn Hi)
    as (s' & salida & s1 & Hs' & Hi' & _ & _ & _ & _ & _ & _ & _ & Hrr & _).
  exists s'. split; [exact Hs'|].
  destruct (aplicar_perturbacion_atenuada_forma s p (inv_par s Hi))
    as (Ha & Hpos & Hneg & _).
  destruct (clip_incremento (rpm_ctrl (var s'))
              (aplicar_perturbacion_atenuada s p) 4700 6300
              (inv_rpm_ctrl s' Hi')) as [Hp Hn].
  rewrite Hrr.
  destruct (Qlt_le_dec 0 p) as [H0 | H0].
  - specialize (Hp (Hpos ltac:(lra))).
    repeat split; intros; lra.
  - specialize (Hn (Hneg H0)).
    repeat split; intros; lra.
Qed.

Lemma rpm_reales_cerca_de_rpm_ctrl_witness :
  exists s',
    actualizar_sistema __init__ 200 None = Ok s'
    /\ -30 <= rpm_reales (var s') - rpm_ctrl (var s') <= 60
    /\ (0 <= 200 -> rpm_ctrl (var s') <= rpm_reales (var s'))
    /\ (200 <= 0 -> rpm_reales (var s') <= rpm_ctrl (var s'))
    /\ (200 == 0 -> rpm_reales (var s') == rpm_ctrl (var s')).
Proof.
  apply (rpm_reales_cerca_de_rpm_ctrl __init__ 200 None).
  exists []. reflexivity.
Defined.

(** X14.  For a target of the slider range [[60, 80]] the final clip of the
    speed is never active: after the tick the speed is exactly
    [rpm_reales / rpm_nominal * velocidad_nominal], strictly inside the
    speed limits. *)
Theorem velocidad_sin_saturar
  (s : SistemaControlMotor) (p : Q) (vn : option Q) :
  alcanzable s ->
  60 <= nominal_elegida s vn <= 80 ->
  exists s',
    actualizar_sistema s p vn = Ok s'
    /\ velocidad_actual (var s')
       == rpm_reales (var s') / rpm_nominal (par s')
          * velocidad_nominal (var s')
    /\ 51 < velocidad_actual (var s') < 92.
Proof.
  intros Hs Hvn. pose proof (alcanzable_invariante s Hs) as Hi.
  destruct (actualizar_sistema_campos s p vn Hi)
    as (s' & salida & s1 & Hs' & Hi' & _ & Hn & _ & _ & _ & _ & _ & _ & Hv & _).
  exists s'. split; [exact Hs'|].
  pose proof (inv_rpm_reales s' Hi') as Hrr.
  rewrite Hv, Hn, (inv_par s' Hi'), (inv_par s Hi).
  cbn [rpm_nominal velocidad_min velocidad_max parametros_iniciales].
  set (r := rpm_reales (var s')) in *. set (n := nominal_elegida s vn) in *.
  unfold Qdiv. change (/ 5500) with (1 # 5500).
  assert (H1 : 0 <= (r - 4700) * n) by (apply Qmult_le_0_compat; lra).
  assert (H2 : 0 <= (6300 - r) * n) by (apply Qmult_le_0_compat; lra).
  assert (E1 : (r - 4700) * n == r * n - 4700 * n) by ring.
  assert (E2 : (6300 - r) * n == 6300 * n - r * n) by ring.
  assert (E3 : r * (1 # 5500) * n == (1 # 5500) * (r * n)) by ring.
  assert (Hb : 51 < r * (1 # 5500) * n < 92) by (rewrite E3; split; lra).
  rewrite clip_id by (split; lra).
  split; [reflexivity | exact Hb].
Qed.

Lemma velocidad_sin_saturar_witness :
  exists s',
    actualizar_sistema __init__ 200 (Some 60) = Ok s'
    /\ velocidad_actual (var s')
       == rpm_reales (var s') / rpm_nominal (par s')
          * velocidad_nominal (var s')
    /\ 51 < velocidad_actual (var s') < 92.
Proof.
  apply (velocidad_sin_saturar __init__ 200 (Some 60)).
  - exists []. reflexivity.
  - split; discriminate.
Defined.

(** ** The integral over a run *)

Lemma integral_limitada_lenta (s : SistemaControlMotor) (ek : Q) :
  dt (par s) = 0.1 ->
  Qabs (integral (var s)) <= 2 ->
  Qabs (integral_limitada s ek) <= Qabs (integral (var s)) + 0.002.
Proof.
  intros Hdt Hi. unfold integral_limitada.
  destruct (esta_en_rango_objetivo s && Qltb (Qabs ek) 1) eqn:E.
  - apply andb_true_iff in E. destruct E as [_ E].
    apply Qltb_lt in E. rewrite Hdt.
    apply Qabs_Qle_condition in Hi.
    pose proof (clip_desplazado (integral (var s)) (ek * 0.1 * 0.02) (-2) 2 Hi)
      as Hd.
    assert (Hk : Qabs (ek * 0.1 * 0.02) <= 0.002).
    { apply Qabs_Qle_condition.
      pose proof (proj1 (Qabs_Qle_condition ek 1) (Qlt_le_weak _ _ E)) as Hek.
      lra. }
    pose proof (Qabs_triangle
                  (clip (integral (var s) + ek * 0.1 * 0.02) (-2) 2
                   - integral (var s))
                  (integral (var s))) as Ht.
    assert (Eq : clip (integral (var s) + ek * 0.1 * 0.02) (-2) 2
                 - integral (var s) + integral (var s)
                 == clip (integral (var s) + ek * 0.1 * 0.02) (-2) 2) by ring.
    rewrite Eq in Ht. lra.
  - assert (Hn : 0 <= Qabs (integral (var s))) by apply Qabs_nonneg.
    rewrite Qabs_Qmult. rewrite (Qabs_pos 0.9) by discriminate. lra.
Qed.

(** X15.  The integral builds up slowly: after [n] ticks from the
    constructed object its magnitude is at most [0.002 * n], so the bound 2
    cannot be reached in fewer than 1000 ticks. *)
Theorem integral_lenta (entradas : list entrada) :
  exists s,
    ejecutar __init__ entradas = Ok s
    /\ Qabs (integral (var s))
       <= 0.002 * inject_Z (Z.of_nat (length entradas)).
Proof.
  destruct (ejecutar_contado
              (fun n s => Qabs (integral (var s))
                          <= 0.002 * inject_Z (Z.of_nat n)))
    with (entradas := entradas) (s := __init__) (n := 0%nat)
    as (s & Hs & HP).
  - intros n s p vn s' Hi HP Hs'.
    destruct (actualizar_sistema_detalle s p vn Hi)
      as (s'' & ek & Hs'' & _ & Hint & _).
    assert (s'' = s') by congruence. subst s''.
    rewrite Hint.
    pose proof (integral_limitada_lenta (entrada_control s vn) ek) as Hl.
    cbn [entrada_control antes_del_control par var integral] in Hl.
    rewrite (inv_par s Hi) in Hl.
    specialize (Hl eq_refl (inv_integral s Hi)).
    cbn [entrada_control antes_del_control par var integral].
    rewrite Nat2Z.inj_succ. unfold Z.succ. rewrite inject_Z_plus.
    change (inject_Z 1) with 1. lra.
  - exact invariante_init.
  - cbn. discriminate.
  - exists s. split; [exact Hs | exact HP].
Qed.

(** ** When a tick raises, and when it leaves the rationals *)

Lemma derivativo_valor (s : SistemaControlMotor) (ek : Q) :
  exists d, derivativo s ek = Ok d.
Proof.
  destruct (Qlt_le_dec 0 (dt (par s))) as [Hdt | Hdt].
  - eexists. apply derivativo_ok. exact Hdt.
  - exists 0. apply derivativo_sin_division. exact Hdt.
Qed.

Lemma calcular_tendencia_casos (s : SistemaControlMotor) :
  ((exists t, calcular_tendencia s = Ok t)
   /\ ~ ((2 <= len (historial_salida (hist s)))%nat /\ dt (par s) == 0))
  \/ (calcular_tendencia s = Error ZeroDivisionError
      /\ ((2 <= len (historial_salida (hist s)))%nat /\ dt (par s) == 0)
      /\ velocidad_actual_np (var s) = false
      /\ velocidad_anterior_np (var s) = false)
  \/ (calcular_tendencia s = NoFinito
      /\ ((2 <= len (historial_salida (hist s)))%nat /\ dt (par s) == 0)
      /\ (velocidad_actual_np (var s) = true
          \/ velocidad_anterior_np (var s) = true)).
Proof.
  unfold calcular_tendencia.
  destruct (2 <=? len (historial_salida (hist s)))%nat eqn:E.
  - apply Nat.leb_le in E.
    destruct (Qeq_dec (dt (par s)) 0) as [Hdt | Hdt].
    + right.
      destruct (velocidad_actual_np (var s)) eqn:E1;
        [|destruct (velocidad_anterior_np (var s)) eqn:E2]; cbn [orb].
      * right. rewrite dividir_np_cero by exact Hdt. auto.
      * right. rewrite dividir_np_cero by exact Hdt. auto.
      * left. rewrite dividir_cero by exact Hdt. auto.
    + left. split; [|intros [_ H]; contradiction].
      destruct (velocidad_actual_np (var s) || velocidad_anterior_np (var s));
        [rewrite dividir_np_ok by exact Hdt | rewrite dividir_ok by exact Hdt];
        eexists; reflexivity.
  - apply Nat.leb_gt in E. left.
    split; [eexists; reflexivity | intros [H _]; lia].
Qed.

(** X16.  The three outcomes of a tick, for any object and inputs.  It
    raises [ZeroDivisionError] exactly when the voltage range has zero
    width, or when [dt = 0], the output history holds two samples and both
    speeds are still Python numbers.  Short of that, it divides a NumPy
    scalar by zero, going on with [inf] or [nan] without raising, exactly
    when [dt = 0] with two samples and a speed that is a NumPy scalar, or
    [rpm_nominal = 0].  With no zero divisor, a negative [dt] included, it
    returns a state. *)
Theorem actualizar_sistema_falla
  (s : SistemaControlMotor) (p : Q) (vn : option Q) :
  let rango_nulo := vss_volt_max (par s) == vss_volt_min (par s) in
  let dt_nulo :=
    (2 <= len (historial_salida (hist s)))%nat /\ dt (par s) == 0 in
  (actualizar_sistema s p vn = Error ZeroDivisionError
   <-> (rango_nulo
        \/ (dt_nulo
            /\ velocidad_actual_np (var s) = false
            /\ velocidad_anterior_np (var s) = false)))
  /\ (actualizar_sistema s p vn = NoFinito
      <-> (~ rango_nulo
           /\ ((dt_nulo
                /\ (velocidad_actual_np (var s) = true
                    \/ velocidad_anterior_np (var s) = true))
               \/ (~ dt_nulo /\ rpm_nominal (par s) == 0))))
  /\ (~ rango_nulo -> ~ dt_nulo -> ~ rpm_nominal (par s) == 0 ->
      exists s', actualizar_sistema s p vn = Ok s').
Proof.
  cbv zeta.
  unfold actualizar_sistema.
  fold (nominal_elegida s vn). fold (error_volts_de s vn).
  fold (entrada_control s vn).
  unfold calcular_control_proporcional_inteligente.
  pose proof (calcular_tendencia_casos (entrada_control s vn)) as Ht.
  cbn [entrada_control antes_del_control par hist var velocidad_actual_np
       velocidad_anterior_np] in Ht.
  fold (entrada_control s vn) in Ht.
  destruct (Qeq_dec (vss_volt_max (par s)) (vss_volt_min (par s))) as [Ev | Ev].
  { unfold error_volts_a_kmh.
    cbn [entrada_control antes_del_control par].
    rewrite dividir_cero by lra. cbn [bind].
    split; [|split].
    - split; [intros _; left; exact Ev | reflexivity].
    - split; [discriminate | intros [H _]; contradiction].
    - intros H. contradiction. }
  rewrite error_volts_a_kmh_ok by exact Ev. cbn [bind].
  destruct Ht as [[[t Ht] Hn] | [(Ht & Hz & Ha & Hb) | (Ht & Hz & Hab)]];
    rewrite Ht; cbn [bind].
  - destruct (derivativo_valor (entrada_control s vn)
                (error_volts_de s vn * escala_de (entrada_control s vn)))
      as [d Hd].
    rewrite Hd. cbn [bind sc_control].
    unfold velocidad_actual_nueva. cbn [par].
    cbn [entrada_control antes_del_control par].
    destruct (Qeq_dec (rpm_nominal (par s)) 0) as [Er | Er].
    + rewrite dividir_np_cero by exact Er. cbn [bind].
      split; [|split].
      * split; [discriminate|].
        intros [H | [H _]]; contradiction.
      * split; [intros _; split; [exact Ev | right; split; assumption]
               | reflexivity].
      * intros _ _ H. contradiction.
    + rewrite dividir_np_ok by exact Er. cbn [bind].
      split; [|split].
      * split; [discriminate|].
        intros [H | [H _]]; contradiction.
      * split; [discriminate|].
        intros [_ [[H _] | [_ H]]]; contradiction.
      * intros _ _ _. eexists. reflexivity.
  - split; [|split].
    + split; [intros _; right; repeat split; tauto | reflexivity].
    + split; [discriminate|].
      intros [_ [[_ [H | H]] | [H _]]]; [congruence | congruence | contradiction].
    + intros _ H. contradiction.
  - split; [|split].
    + split; [discriminate|].
      intros [H | [_ [H1 H2]]]; [contradiction|].
      destruct Hab; congruence.
    + split; [intros _; split; [exact Ev | left; split; assumption]
             | reflexivity].
    + intros _ H. contradiction.
Qed.

Lemma actualizar_sistema_falla_witness :
  actualizar_sistema sensor_sin_rango 0 None = Error ZeroDivisionError.
Proof.
  apply (proj2 (proj1 (actualizar_sistema_falla sensor_sin_rango 0 None))).
  left. reflexivity.
Defined.

(** ** The signals a tick leaves *)

Lemma actualizar_sistema_memoria
  (s : SistemaControlMotor) (p : Q) (vn : option Q) :
  invariante s ->
  exists s',
    actualizar_sistema s p vn = Ok s'
    /\ error_anterior_kmh (var s') = error_volts_de s vn * escala_de s
    /\ velocidad_anterior (var s') = velocidad_actual (var s).
Proof.
  intros Hs.
  pose proof (parametros_bien_configurados s (inv_par s Hs)) as Hb.
  destruct (actualizar_sistema_ok s p vn Hb)
    as (ek & t & d & s1 & control & rc & rr & v
        & Hek & Ht & Hd & Hs1 & Hcontrol & Hrc & Hrr & Hv & Hs').
  eexists. split; [exact Hs'|].
  rewrite error_volts_a_kmh_ok in Hek by (apply Hb).
  injection Hek as Hek.
  cbn [var variables_tras_dinamica error_anterior_kmh velocidad_anterior].
  rewrite Hs1. cbn [var variables_tras_control error_anterior_kmh
                    velocidad_anterior].
  split; [symmetry; exact Hek | reflexivity].
Qed.

Lemma velocidad_a_voltaje_inicial (s : SistemaControlMotor) (v : Q) :
  par s = parametros_iniciales ->
  0 <= velocidad_a_voltaje s v <= 5
  /\ (50 <= v <= 100 -> velocidad_a_voltaje s v == (v - 50) / 10).
Proof.
  intros Hpar. split.
  - unfold velocidad_a_voltaje. rewrite Hpar. cbn.
    apply clip_bounds. discriminate.
  - intros Hv.
    rewrite velocidad_a_voltaje_sin_saturar
      by (rewrite Hpar; cbn; (reflexivity || exact Hv)).
    rewrite Hpar. cbn [vss_vel_min vss_vel_max vss_volt_min vss_volt_max
                       parametros_iniciales].
    field.
Qed.

(** X17.  After every tick of a reachable state the stored signals are in
    their ranges: the error in volts in [[-5, 5]], the command in
    [[-30, 25]] and its voltage in [[0, 5]]; the voltage is
    [2.5 + command / 10] unless the command is below -25, where it is 0. *)
Theorem senales_tras_el_tick
  (s : SistemaControlMotor) (p : Q) (vn : option Q) :
  alcanzable s ->
  exists s',
    actualizar_sistema s p vn = Ok s'
    /\ -5 <= error_volts (var s') <= 5
    /\ -30 <= senal_control_interna (var s') <= 25
    /\ 0 <= senal_control_volts (var s') <= 5
    /\ (-25 <= senal_control_interna (var s') ->
        senal_control_volts (var s')
        == 2.5 + senal_control_interna (var s') / 10)
    /\ (senal_control_interna (var s') <= -25 ->
        senal_control_volts (var s') == 0).
Proof.
  intros Hs. pose proof (alcanzable_invariante s Hs) as Hi.
  pose proof (inv_par s Hi) as Hpar.
  destruct (actualizar_sistema_campos s p vn Hi)
    as (s' & salida & s1 & Hs' & _ & Hc & _ & _ & Hev & Hci & Hcv & _).
  exists s'. split; [exact Hs'|].
  destruct (calcular_control_ok (entrada_control s vn) (error_volts_de s vn))
    as (ek & t & d & _ & _ & _ & Hc').
  { cbn [entrada_control antes_del_control par]. rewrite Hpar. reflexivity. }
  { cbn [entrada_control antes_del_control par]. rewrite Hpar.
    intros H. discriminate H. }
  rewrite Hc' in Hc. injection Hc as Hsal _.
  assert (Hb : -30 <= sc_control salida <= 25).
  { rewrite <- Hsal. cbn [sc_control]. apply limitacion_inteligente_acotada. }
  destruct (senal_control_a_voltaje_inicial s (sc_control salida) Hpar)
    as (Hv & Hlin & Hlo & _).
  rewrite Hev, Hci, Hcv.
  split.
  { unfold error_volts_de.
    destruct (velocidad_a_voltaje_inicial s (nominal_elegida s vn) Hpar)
      as [H1 _].
    destruct (velocidad_a_voltaje_inicial s (velocidad_actual (var s)) Hpar)
      as [H2 _].
    lra. }
  split; [exact Hb|]. split; [exact Hv|].
  split; intros H; [apply Hlin; lra | apply Hlo; exact H].
Qed.

Lemma senales_tras_el_tick_witness :
  exists s',
    actualizar_sistema __init__ 0 (Some 60) = Ok s'
    /\ -5 <= error_volts (var s') <= 5
    /\ -30 <= senal_control_interna (var s') <= 25
    /\ 0 <= senal_control_volts (var s') <= 5
    /\ (-25 <= senal_control_interna (var s') ->
        senal_control_volts (var s')
        == 2.5 + senal_control_interna (var s') / 10)
    /\ (senal_control_interna (var s') <= -25 ->
        senal_control_volts (var s') == 0).
Proof.
  apply (senales_tras_el_tick __init__ 0 (Some 60)).
  exists []. reflexivity.
Defined.

(** X18.  For a target of the sensor range [[50, 100]] the error the
    controller worked with, kept in [error_anterior_kmh], is the speed
    error [velocidad_nominal - velocidad_actual] at the start of the tick,
    the value logged in [error_kmh]: the detour through volts loses
    nothing. *)
Theorem error_del_controlador
  (s : SistemaControlMotor) (p : Q) (vn : option Q) :
  alcanzable s ->
  50 <= nominal_elegida s vn <= 100 ->
  exists s',
    actualizar_sistema s p vn = Ok s'
    /\ error_anterior_kmh (var s')
       == nominal_elegida s vn - velocidad_actual (var s)
    /\ error_anterior_kmh (var s') == error_kmh (var s')
    /\ error_anterior_kmh (var s') == 10 * error_volts (var s').
Proof.
  intros Hs Hvn. pose proof (alcanzable_invariante s Hs) as Hi.
  pose proof (inv_par s Hi) as Hpar.
  destruct (actualizar_sistema_memoria s p vn Hi) as (s' & Hs' & Hea & _).
  destruct (actualizar_sistema_campos s p vn Hi)
    as (s'' & salida & s1 & Hs'' & _ & _ & _ & _ & Hev & _ & _ & _ & _ & _ & _
        & Hek & _).
  assert (s'' = s') by congruence. subst s''.
  exists s'. split; [exact Hs'|].
  rewrite Hea, Hek, Hev.
  assert (E : escala_de s == 10).
  { unfold escala_de. rewrite Hpar. reflexivity. }
  rewrite E. unfold error_volts_de.
  destruct (velocidad_a_voltaje_inicial s (nominal_elegida s vn) Hpar)
    as [_ H1].
  destruct (velocidad_a_voltaje_inicial s (velocidad_actual (var s)) Hpar)
    as [_ H2].
  rewrite (H1 Hvn), (H2 (inv_velocidad s Hi)).
  repeat split; field.
Qed.

Lemma error_del_controlador_witness :
  exists s',
    actualizar_sistema __init__ 0 (Some 60) = Ok s'
    /\ error_anterior_kmh (var s')
       == nominal_elegida __init__ (Some 60) - velocidad_actual (var __init__)
    /\ error_anterior_kmh (var s') == error_kmh (var s')
    /\ error_anterior_kmh (var s') == 10 * error_volts (var s').
Proof.
  apply (error_del_controlador __init__ 0 (Some 60)).
  - exists []. reflexivity.
  - split; discriminate.
Defined.

(** ** The deques over a run *)

Lemma elementos_append {A : Type} (d : deque A) (x : A) :
  elementos d <> [] ->
  elementos (append d x) =
  if (len d <? maxlen d)%nat then elementos d ++ [x]
  else tl (elementos d) ++ [x].
Proof.
  intros H. unfold append, len. cbn [elementos].
  destruct (length (elementos d) <? maxlen d)%nat; [reflexivity|].
  destruct (elementos d) as [|a l]; [contradiction | reflexivity].
Qed.

Lemma ultimo_append {A : Type} (d : deque A) (x x0 : A) :
  elementos d <> [] -> ultimo (append d x) x0 = x.
Proof.
  intros H. unfold ultimo. rewrite elementos_append by exact H.
  destruct (len d <? maxlen d)%nat; apply last_last.
Qed.

Lemma historial_ok_no_vacio {A : Type} (d : deque A) :
  historial_ok d -> elementos d <> [].
Proof.
  intros [_ [H _]] E. unfold len in H. rewrite E in H. cbn in H. lia.
Qed.

Lemma Forall_append {A : Type} (P : A -> Prop) (d : deque A) (x : A) :
  elementos d <> [] ->
  Forall P (elementos d) -> P x -> Forall P (elementos (append d x)).
Proof.
  intros Hne Hall Hx. rewrite elementos_append by exact Hne.
  destruct (len d <? maxlen d)%nat.
  - apply Forall_app. split; [exact Hall | constructor; [exact Hx | constructor]].
  - apply Forall_app. split; [|constructor; [exact Hx | constructor]].
    destruct (elementos d) as [|a l]; [constructor|].
    cbn [tl]. inversion Hall. assumption.
Qed.

Lemma paso_constante_tl (d : Q) (l : list Q) :
  paso_constante d l -> paso_constante d (tl l).
Proof.
  destruct l as [|a r]; [intros; exact I|]. cbn [tl paso_constante].
  intros [_ H]. exact H.
Qed.

Lemma paso_constante_snoc (d : Q) (l : list Q) (x : Q) :
  paso_constante d l -> l <> [] -> x == last l 0 + d ->
  paso_constante d (l ++ [x]).
Proof.
  induction l as [|a r IH]; intros Hp Hne Hx; [contradiction|].
  destruct r as [|b r'].
  - cbn in *. repeat split. exact Hx.
  - cbn [app paso_constante] in *. destruct Hp as [Hab Hp].
    split; [exact Hab|].
    apply IH; [exact Hp | discriminate | exact Hx].
Qed.

Lemma last_tl {A : Type} (l : list A) (x0 : A) :
  (2 <= length l)%nat -> last (tl l) x0 = last l x0.
Proof.
  destruct l as [|a [|b r]]; cbn [length]; try lia. reflexivity.
Qed.

Lemma paso_constante_append (dq : deque Q) (d x : Q) :
  (2 <= len dq)%nat ->
  paso_constante d (elementos dq) -> x == ultimo dq 0 + d ->
  paso_constante d (elementos (append dq x)).
Proof.
  intros Hl Hp Hx.
  assert (Hne : elementos dq <> []).
  { intros E. unfold len in Hl. rewrite E in Hl. cbn in Hl. lia. }
  rewrite elementos_append by exact Hne.
  destruct (len dq <? maxlen dq)%nat.
  - apply paso_constante_snoc; assumption.
  - apply paso_constante_snoc.
    + apply paso_constante_tl. exact Hp.
    + unfold len in Hl. destruct (elementos dq) as [|a [|b r]];
        cbn in Hl; try lia. discriminate.
    + rewrite last_tl by exact Hl. exact Hx.
Qed.

(** In a list of constant non-negative step every element lies between
    the last one minus the span and the last one. *)
Lemma paso_constante_rango (d : Q) (l : list Q) :
  0 <= d -> paso_constante d l ->
  Forall (fun t =>
            last l 0 - d * inject_Z (Z.of_nat (Nat.pred (length l))) <= t
            <= last l 0) l.
Proof.
  intros Hd. induction l as [|a r IH]; intros Hp; [constructor|].
  destruct r as [|b r'].
  - constructor; [|constructor].
    cbn [last length Nat.pred Z.of_nat]. change (inject_Z 0) with 0.
    split; lra.
  - destruct Hp as [Hab Hp]. specialize (IH Hp).
    assert (Hn : 0 <= inject_Z (Z.of_nat (length r'))).
    { change 0 with (inject_Z 0). rewrite <- Zle_Qle. lia. }
    assert (Hm : 0 <= d * inject_Z (Z.of_nat (length r')))
      by (apply Qmult_le_0_compat; assumption).
    change (last (a :: b :: r') 0) with (last (b :: r') 0).
    assert (E : inject_Z (Z.of_nat (Nat.pred (length (a :: b :: r'))))
                == inject_Z (Z.of_nat (Nat.pred (length (b :: r')))) + 1).
    { cbn [length Nat.pred]. rewrite Nat2Z.inj_succ. unfold Z.succ.
      rewrite inject_Z_plus. reflexivity. }
    cbn [length Nat.pred] in IH.
    constructor.
    + inversion IH as [|? ? Hb _]. subst. rewrite E.
      cbn [length Nat.pred]. split; lra.
    + eapply Forall_impl; [|exact IH].
      intros t Ht. cbv beta in Ht |- *. rewrite E. cbn [length Nat.pred].
      split; lra.
Qed.

Lemma len_append_contado {A : Type} (d : deque A) (x : A) (n : nat) :
  historial_ok d ->
  len d = Nat.min (5 + n) 150 ->
  len (append d x) = Nat.min (5 + S n) 150.
Proof.
  intros [Hm _] Hl. rewrite len_append, Hm. unfold max_points.
  destruct (len d <? 150)%nat eqn:E.
  - apply Nat.ltb_lt in E. lia.
  - apply Nat.ltb_ge in E. lia.
Qed.

Lemma longitudes_actualizar
  (s : SistemaControlMotor) (p P I D : Q) (m m' : nat) :
  historiales_ok (hist s) ->
  (forall (A : Type) (d : deque A) (x : A),
     historial_ok d -> len d = m -> len (append d x) = m') ->
  longitudes (hist s) = repeat m 15 ->
  longitudes (actualizar_historiales s p P I D) = repeat m' 15.
Proof.
  intros Hok Happ Hlen.
  unfold historiales_ok in Hok. decompose [and] Hok. clear Hok.
  unfold longitudes, actualizar_historiales in *.
  cbn [historial_tiempo historial_entrada historial_salida
       historial_error_kmh historial_error_volts historial_control_volts
       historial_control_interna historial_perturbacion historial_retro
       historial_proporcional historial_integral historial_derivativo
       historial_rpm_ctrl historial_rpm_reales historial_en_rango repeat]
    in *.
  injection Hlen as L1 L2 L3 L4 L5 L6 L7 L8 L9 L10 L11 L12 L13 L14 L15.
  repeat (f_equal; [apply Happ; assumption|]).
  f_equal. apply Happ; assumption.
Qed.

Lemma elementos_append_iguales {A : Type} (d1 d2 : deque A) (x : A) :
  historial_ok d1 -> historial_ok d2 ->
  elementos d1 = elementos d2 ->
  elementos (append d1 x) = elementos (append d2 x).
Proof.
  intros [Hm1 _] [Hm2 _] He. unfold append, len. cbn [elementos].
  rewrite Hm1, Hm2, He. reflexivity.
Qed.

Lemma historia_ok_init : historia_ok 0 __init__.
Proof.
  constructor; try reflexivity.
  - cbn. repeat split.
  - cbn. repeat constructor; discriminate.
Qed.

Lemma historia_ok_paso
  (n : nat) (s s' : SistemaControlMotor) (p : Q) (vn : option Q) :
  invariante s -> historia_ok n s ->
  actualizar_sistema s p vn = Ok s' ->
  historia_ok (S n) s'.
Proof.
  intros Hi Hh Hs'.
  destruct (actualizar_sistema_campos s p vn Hi)
    as (s'' & salida & s1 & Hs'' & Hi' & _ & _ & Ht & _ & _ & _ & _ & _ & _
        & Hr & _ & Hhist).
  assert (s'' = s') by congruence. subst s''.
  pose proof (inv_hist s Hi) as Hok.
  unfold historiales_ok in Hok. decompose [and] Hok. clear Hok.
  destruct Hh as [Hlen Htiempo Hult Hpaso Hsal Husal Hretro Huent Huer].
  assert (Ez : inject_Z (Z.of_nat (S n)) == inject_Z (Z.of_nat n) + 1).
  { rewrite Nat2Z.inj_succ. unfold Z.succ. rewrite inject_Z_plus.
    reflexivity. }
  assert (Hlt : (0 <? len (historial_tiempo (hist s)))%nat = true).
  { apply Nat.ltb_lt.
    match goal with
    | Hx : historial_ok (historial_tiempo (hist s)) |- _ =>
        destruct Hx as [_ Hx]; lia
    end. }
  constructor; try rewrite Hhist;
    cbn [actualizar_historiales hist par var historial_tiempo
         historial_salida historial_retro historial_entrada
         historial_en_rango].
  - apply (longitudes_actualizar _ _ _ _ _ (Nat.min (5 + n) 150)).
    + exact (inv_hist s Hi).
    + intros A d x. apply len_append_contado.
    + exact Hlen.
  - rewrite Ht, (inv_par s Hi), Ez. cbn [dt parametros_iniciales].
    rewrite Htiempo. ring.
  - rewrite ultimo_append by (apply historial_ok_no_vacio; assumption).
    rewrite Hlt, (inv_par s Hi), Ez. cbn [dt parametros_iniciales].
    rewrite Hult. ring.
  - apply paso_constante_append.
    + match goal with
      | Hx : historial_ok (historial_tiempo (hist s)) |- _ =>
          destruct Hx as [_ Hx]; lia
      end.
    + exact Hpaso.
    + rewrite Hlt, (inv_par s Hi). reflexivity.
  - apply Forall_append;
      [apply historial_ok_no_vacio; assumption | exact Hsal
       | exact (inv_velocidad s' Hi')].
  - apply ultimo_append. apply historial_ok_no_vacio. assumption.
  - rewrite Hr. apply elementos_append_iguales; assumption.
  - apply ultimo_append. apply historial_ok_no_vacio. assumption.
  - rewrite ultimo_append by (apply historial_ok_no_vacio; assumption).
    unfold esta_en_rango_objetivo, get_rango_objetivo. cbn [par var].
    rewrite (inv_par s Hi), (inv_par s' Hi'). reflexivity.
Qed.

Lemma historia_ok_ejecutar (entradas : list entrada) :
  exists s,
    ejecutar __init__ entradas = Ok s
    /\ invariante s
    /\ historia_ok (length entradas) s.
Proof.
  destruct (ejecutar_contado (fun n s => invariante s /\ historia_ok n s))
    with (entradas := entradas) (s := __init__) (n := 0%nat)
    as (s & Hs & Hi & Hh).
  - intros n s p vn s' Hi [_ Hh] Hs'. split.
    + destruct (actualizar_sistema_invariante s p vn Hi)
        as (s'' & Hs'' & Hi'' & _).
      congruence.
    + exact (historia_ok_paso n s s' p vn Hi Hh Hs').
  - exact invariante_init.
  - split; [exact invariante_init | exact historia_ok_init].
  - exists s. split; [exact Hs | split; [exact Hi | exact Hh]].
Qed.

Lemma len_tiempo_contado (n : nat) (s : SistemaControlMotor) :
  historia_ok n s ->
  len (historial_tiempo (hist s)) = Nat.min (5 + n) 150.
Proof.
  intros Hh. pose proof (ho_longitudes n s Hh) as H.
  unfold longitudes in H. set (m := Nat.min (5 + n) 150) in *.
  cbn [repeat] in H. injection H as H _. exact H.
Qed.

(** X19.  The clock and the time stamps: after [n] ticks from the
    constructed object [tiempo_transcurrido] is [0.1 * n], and the newest
    time stamp is [0.4 + 0.1 * n], the five preloaded stamps keeping it 0.4
    ahead of the clock. *)
Theorem tiempo_tras_n_ticks (entradas : list entrada) :
  exists s,
    ejecutar __init__ entradas = Ok s
    /\ tiempo_transcurrido (var s)
       == 0.1 * inject_Z (Z.of_nat (length entradas))
    /\ ultimo (historial_tiempo (hist s)) 0
       == tiempo_transcurrido (var s) + 0.4.
Proof.
  destruct (historia_ok_ejecutar entradas) as (s & Hs & _ & Hh).
  exists s. split; [exact Hs|].
  pose proof (ho_tiempo _ s Hh) as H1.
  pose proof (ho_ultimo_tiempo _ s Hh) as H2.
  split; [exact H1 | lra].
Qed.

(** X20.  After [n] ticks from the constructed object each of the fifteen
    deques holds [min(5 + n, 150)] samples: the five preloaded ones plus one
    per tick, up to the capacity. *)
Theorem longitudes_tras_n_ticks (entradas : list entrada) :
  exists s,
    ejecutar __init__ entradas = Ok s
    /\ longitudes (hist s)
       = repeat (Nat.min (5 + length entradas) 150) 15.
Proof.
  destruct (historia_ok_ejecutar entradas) as (s & Hs & _ & Hh).
  exists s. split; [exact Hs | exact (ho_longitudes _ s Hh)].
Qed.

(** X21.  The log: [log_valores] is called after the tick number [n]
    exactly when [n] is a multiple of 5 or [n >= 145]; once the time deque
    is full its length stays 150 and every tick logs. *)
Theorem log_cada_cinco_ticks (entradas : list entrada) :
  exists s,
    ejecutar __init__ entradas = Ok s
    /\ (log_emitido s = true
        <-> ((length entradas) mod 5 = 0 \/ 145 <= length entradas)%nat).
Proof.
  destruct (historia_ok_ejecutar entradas) as (s & Hs & _ & Hh).
  exists s. split; [exact Hs|].
  unfold log_emitido. rewrite (len_tiempo_contado _ s Hh).
  rewrite Nat.eqb_eq.
  set (n := length entradas).
  destruct (Nat.le_gt_cases 145 n) as [H | H].
  - rewrite Nat.min_r by lia. split; [intros _; right; exact H | reflexivity].
  - rewrite Nat.min_l by lia.
    replace (5 + n)%nat with (n + 1 * 5)%nat by lia.
    rewrite Nat.Div0.mod_add.
    split; [intros E; left; exact E | intros [E | E]; [exact E | lia]].
Qed.

(** X22.  The time stamps kept in [historial_tiempo] are equally spaced by
    0.1, hence increasing, and all of them fall inside the horizontal
    window [[x_min, x_max]] that [animar] sets: 150 samples span 14.9 s, the
    window 16 s. *)
Theorem marcas_de_tiempo_visibles (entradas : list entrada) :
  exists s,
    ejecutar __init__ entradas = Ok s
    /\ paso_constante 0.1 (elementos (historial_tiempo (hist s)))
    /\ Forall (fun t => fst (limites_eje_x s) <= t <= snd (limites_eje_x s))
         (elementos (historial_tiempo (hist s))).
Proof.
  destruct (historia_ok_ejecutar entradas) as (s & Hs & _ & Hh).
  exists s. split; [exact Hs|].
  pose proof (ho_paso _ s Hh) as Hp. split; [exact Hp|].
  pose proof (paso_constante_rango 0.1 _ ltac:(discriminate) Hp) as Hr.
  pose proof (ho_ultimo_tiempo _ s Hh) as Hu. unfold ultimo in Hu.
  pose proof (len_tiempo_contado _ s Hh) as Hl. unfold len in Hl.
  rewrite Hl in Hr.
  set (n := length entradas) in *.
  assert (H1 : inject_Z (Z.of_nat (Nat.pred (Nat.min (5 + n) 150)))
               <= inject_Z (Z.of_nat n) + 4).
  { change 4 with (inject_Z 4). rewrite <- inject_Z_plus, <- Zle_Qle. lia. }
  assert (H2 : inject_Z (Z.of_nat (Nat.pred (Nat.min (5 + n) 150))) <= 149).
  { change 149 with (inject_Z 149). rewrite <- Zle_Qle. lia. }
  eapply Forall_impl; [|exact Hr].
  intros t [Ht1 Ht2]. unfold limites_eje_x, ultimo. cbn [fst snd].
  split; [apply Q.max_lub|]; lra.
Qed.

(** X23.  The recorded output: every sample of [historial_salida] lies in
    [[50, 100]], the newest one is the current speed, the feedback history
    is the same sequence, and the newest samples of the target and of the
    in-range flag are the current target and [esta_en_rango_objetivo]. *)
Theorem historial_de_salida (entradas : list entrada) :
  exists s,
    ejecutar __init__ entradas = Ok s
    /\ Forall (fun v => 50 <= v <= 100) (elementos (historial_salida (hist s)))
    /\ ultimo (historial_salida (hist s)) 0 = velocidad_actual (var s)
    /\ elementos (historial_retro (hist s))
       = elementos (historial_salida (hist s))
    /\ ultimo (historial_entrada (hist s)) 0 = velocidad_nominal (var s)
    /\ ultimo (historial_en_rango (hist s)) true = esta_en_rango_objetivo s.
Proof.
  destruct (historia_ok_ejecutar entradas) as (s & Hs & _ & Hh).
  exists s. split; [exact Hs|].
  destruct Hh. repeat split; assumption.
Qed.

(** ** The operating point *)

Lemma velocidad_a_voltaje_comp (s : SistemaControlMotor) (x y : Q) :
  x == y -> velocidad_a_voltaje s x == velocidad_a_voltaje s y.
Proof.
  intros H. unfold velocidad_a_voltaje.
  destruct (Qeq_bool (vss_vel_max (par s)) (vss_vel_min (par s)));
    [reflexivity|].
  apply clip_comp. rewrite H. reflexivity.
Qed.

Lemma accion_correctiva_nula (s : SistemaControlMotor) (t : Q) :
  fst (get_rango_objetivo s) - 0.3
    <= velocidad_actual (var s) + t * dt (par s)
    <= snd (get_rango_objetivo s) + 0.3 ->
  accion_correctiva_de s t = 0.
Proof.
  cbn [get_rango_objetivo fst snd]. intros [H1 H2].
  unfold accion_correctiva_de. cbn [get_rango_objetivo].
  rewrite (proj2 (Qgtb_le _ _) H2), (proj2 (Qltb_ge _ _) H1). reflexivity.
Qed.

Lemma limitacion_zona_normal (s : SistemaControlMotor) (c : Q) :
  fst (get_rango_objetivo s) - 0.2 <= velocidad_actual (var s)
    <= snd (get_rango_objetivo s) + 0.2 ->
  limitacion_inteligente s c = clip c (-25) 25.
Proof.
  cbn [get_rango_objetivo fst snd]. intros [H1 H2].
  unfold limitacion_inteligente. cbn [get_rango_objetivo].
  rewrite (proj2 (Qgtb_le _ _) H2), (proj2 (Qltb_ge _ _) H1). reflexivity.
Qed.

Lemma proporcional_en_rango_nulo (s : SistemaControlMotor) (ek : Q) :
  esta_en_rango_objetivo s = true -> ek == 0 ->
  proporcional_adaptativo s ek == 0.
Proof.
  intros Hr Hek. unfold proporcional_adaptativo. cbn [get_rango_objetivo].
  rewrite Hr. cbn [negb].
  destruct (Qgtb (velocidad_actual (var s)) (velocidad_nominal (var s) + 0.3)
            || Qltb (velocidad_actual (var s))
                    (velocidad_nominal (var s) - 0.3));
    rewrite Hek; ring.
Qed.

Lemma integral_limitada_nula (s : SistemaControlMotor) (ek : Q) :
  integral (var s) == 0 -> ek == 0 -> integral_limitada s ek == 0.
Proof.
  intros Hi Hek. unfold integral_limitada.
  destruct (esta_en_rango_objetivo s && Qltb (Qabs ek) 1).
  - rewrite (clip_comp _ 0) by (rewrite Hi, Hek; ring).
    apply clip_id. split; discriminate.
  - rewrite Hi. ring.
Qed.

(** X24.  The operating point is an equilibrium.  On an object that sits on
    its target (speed equal to the target and to the previous speed, no
    stored error, empty integral, control RPM at [rpm_nominal]), a tick
    without disturbance and without a new target issues the command 0, that
    is 2.5 V, and leaves the RPM, the speed and the controller memory where
    they were. *)
Theorem punto_de_equilibrio (s : SistemaControlMotor) (p : Q) :
  invariante s ->
  velocidad_actual (var s) == velocidad_nominal (var s) ->
  velocidad_anterior (var s) == velocidad_actual (var s) ->
  error_anterior_kmh (var s) == 0 ->
  integral (var s) == 0 ->
  rpm_ctrl (var s) == rpm_nominal (par s) ->
  p == 0 ->
  exists s',
    actualizar_sistema s p None = Ok s'
    /\ senal_control_interna (var s') == 0
    /\ senal_control_volts (var s') == 2.5
    /\ rpm_ctrl (var s') == rpm_nominal (par s')
    /\ rpm_reales (var s') == rpm_nominal (par s')
    /\ velocidad_nominal (var s') = velocidad_nominal (var s)
    /\ velocidad_actual (var s') == velocidad_nominal (var s')
    /\ velocidad_anterior (var s') == velocidad_actual (var s')
    /\ error_anterior_kmh (var s') == 0
    /\ integral (var s') == 0.
Proof.
  intros Hi Hva Hvant Hea Hint Hrpm Hp.
  pose proof (inv_par s Hi) as Hpar.
  pose proof (inv_velocidad s Hi) as Hvel.
  destruct (actualizar_sistema_campos s p None Hi)
    as (s' & salida & s1 & Hs' & Hi' & Hc & Hn & _ & _ & Hci & Hcv & Hrc
        & Hrr & Hv & _).
  destruct (actualizar_sistema_memoria s p None Hi) as (s2 & Hs2 & Hea' & Hvant').
  assert (s2 = s') by congruence. subst s2.
  destruct (actualizar_sistema_detalle s p None Hi)
    as (s2 & ek0 & Hs2' & Hek0 & Hint' & _).
  assert (s2 = s') by congruence. subst s2.
  set (s0 := entrada_control s None) in *.
  assert (Hdt0 : 0 < dt (par s0)).
  { unfold s0. cbn [entrada_control antes_del_control par].
    rewrite Hpar. reflexivity. }
  assert (Hvolt0 : ~ vss_volt_max (par s0) == vss_volt_min (par s0)).
  { unfold s0. cbn [entrada_control antes_del_control par].
    rewrite Hpar. intros H. discriminate H. }
  destruct (calcular_control_ok s0 (error_volts_de s None) Hdt0 Hvolt0)
    as (ek & t & d & Hek & Ht & Hd & Hc').
  rewrite Hc' in Hc. injection Hc as Hsal _.
  assert (ek0 = ek) by congruence. subst ek0.
  (* the error is zero *)
  assert (Eev : error_volts_de s None == 0).
  { unfold error_volts_de. cbn [nominal_elegida].
    rewrite (velocidad_a_voltaje_comp s _ _ Hva). ring. }
  assert (Eek : ek == 0).
  { rewrite error_volts_a_kmh_ok in Hek by exact Hvolt0.
    injection Hek as <-. rewrite Eev. ring. }
  (* no trend, no derivative *)
  assert (Et : t == 0).
  { rewrite calcular_tendencia_ok in Ht by exact Hdt0.
    unfold s0 in Ht.
    cbn [entrada_control antes_del_control hist par var velocidad_actual
         velocidad_anterior] in Ht.
    destruct (inv_hist s Hi) as (_ & _ & (_ & Hl) & _).
    replace (2 <=? len (historial_salida (hist s)))%nat with true in Ht
      by (symmetry; apply Nat.leb_le; lia).
    injection Ht as <-. rewrite Hvant. unfold Qdiv. ring. }
  assert (Ed : d == 0).
  { rewrite derivativo_ok in Hd by exact Hdt0.
    injection Hd as <-. unfold s0.
    cbn [entrada_control antes_del_control par var error_anterior_kmh].
    rewrite Eek, Hea. unfold Qdiv. ring. }
  (* the object is in range, in the normal zone *)
  assert (Er : esta_en_rango_objetivo s0 = true).
  { apply esta_en_rango_objetivo_true. unfold s0.
    cbn [entrada_control antes_del_control par var velocidad_actual
         velocidad_nominal nominal_elegida].
    rewrite Hpar. cbn [rango_offset_min rango_offset_max parametros_iniciales].
    split; lra. }
  assert (Eacc : accion_correctiva_de s0 t = 0).
  { apply accion_correctiva_nula. unfold s0.
    cbn [get_rango_objetivo fst snd entrada_control antes_del_control par var
         velocidad_actual velocidad_nominal nominal_elegida].
    rewrite Hpar.
    cbn [rango_offset_min rango_offset_max dt parametros_iniciales].
    split; lra. }
  assert (Esum : control_sumado s0 ek t d == 0).
  { unfold control_sumado.
    rewrite (proporcional_en_rango_nulo s0 ek Er Eek), Eacc.
    rewrite (integral_limitada_nula s0 ek) by (try exact Eek; exact Hint).
    rewrite Ed. ring. }
  assert (Ectrl : sc_control salida == 0).
  { rewrite <- Hsal. cbn [sc_control].
    rewrite limitacion_zona_normal.
    - rewrite (clip_comp _ 0) by exact Esum. apply clip_id. split; discriminate.
    - unfold s0.
      cbn [get_rango_objetivo fst snd entrada_control antes_del_control par
           var velocidad_actual velocidad_nominal nominal_elegida].
      rewrite Hpar.
      cbn [rango_offset_min rango_offset_max parametros_iniciales].
      split; lra. }
  assert (Hrpm' : rpm_ctrl (var s) == 5500) by (rewrite Hrpm, Hpar; reflexivity).
  assert (Erc : rpm_ctrl (var s') == 5500).
  { rewrite Hrc. rewrite (clip_comp _ 5500).
    - apply clip_id. split; discriminate.
    - rewrite Ectrl, Hrpm'. ring. }
  assert (Err : rpm_reales (var s') == 5500).
  { rewrite Hrr. rewrite (clip_comp _ 5500).
    - apply clip_id. split; discriminate.
    - destruct (aplicar_perturbacion_atenuada_forma s p Hpar)
        as (_ & _ & _ & Hlin).
      rewrite Hlin by (split; lra). rewrite Erc, Hp. ring. }
  exists s'. split; [exact Hs'|].
  split; [rewrite Hci; exact Ectrl|].
  split.
  { rewrite Hcv.
    unfold senal_control_a_voltaje, MAX_CTRL_INTERNA. rewrite Hpar.
    cbn [senal_ctrl_offset vss_volt_min vss_volt_max parametros_iniciales].
    rewrite (clip_comp _ 2.5).
    - apply clip_id. split; discriminate.
    - rewrite (clip_comp _ 0) by exact Ectrl.
      rewrite (clip_id 0) by (split; discriminate). ring. }
  rewrite (inv_par s' Hi'). cbn [rpm_nominal parametros_iniciales].
  split; [exact Erc|]. split; [exact Err|]. split; [exact Hn|].
  assert (Ev : velocidad_actual (var s') == velocidad_nominal (var s)).
  { rewrite Hv. cbn [nominal_elegida]. rewrite Hpar.
    cbn [rpm_nominal velocidad_min velocidad_max parametros_iniciales].
    rewrite (clip_comp _ (velocidad_nominal (var s))).
    - apply clip_id. lra.
    - rewrite Err. field. }
  split; [rewrite Hn; exact Ev|].
  split; [rewrite Hvant', Ev; exact Hva|].
  split.
  - rewrite Hea'. rewrite Eev. ring.
  - rewrite Hint'. apply integral_limitada_nula; [exact Hint | exact Eek].
Qed.

Lemma invariante_en_equilibrio : invariante en_equilibrio.
Proof.
  constructor.
  - reflexivity.
  - unfold historiales_ok, historial_ok, len, max_points. cbn.
    repeat split; lia.
  - cbn. split; discriminate.
  - cbn. split; discriminate.
  - cbn. split; discriminate.
  - cbn. discriminate.
Qed.

Lemma punto_de_equilibrio_witness :
  exists s',
    actualizar_sistema en_equilibrio 0 None = Ok s'
    /\ senal_control_interna (var s') == 0
    /\ senal_control_volts (var s') == 2.5
    /\ rpm_ctrl (var s') == rpm_nominal (par s')
    /\ rpm_reales (var s') == rpm_nominal (par s')
    /\ velocidad_nominal (var s') = velocidad_nominal (var en_equilibrio)
    /\ velocidad_actual (var s') == velocidad_nominal (var s')
    /\ velocidad_anterior (var s') == velocidad_actual (var s')
    /\ error_anterior_kmh (var s') == 0
    /\ integral (var s') == 0.
Proof.
  apply (punto_de_equilibrio en_equilibrio 0).
  - exact invariante_en_equilibrio.
  - reflexivity.
  - reflexivity.
  - reflexivity.
  - reflexivity.
  - reflexivity.
  - reflexivity.
Defined.

(** ** Direction of the plant, bookkeeping of the tick, the log marker *)

(** X25.  The control RPM follow the sign of the command: after a tick of a
    reachable state they have not fallen if the stored command is
    non-negative, not risen if it is non-positive, and not moved if it is
    zero. *)
Theorem rpm_ctrl_sigue_al_control
  (s : SistemaControlMotor) (p : Q) (vn : option Q) :
  alcanzable s ->
  exists s',
    actualizar_sistema s p vn = Ok s'
    /\ (0 <= senal_control_interna (var s') ->
        rpm_ctrl (var s) <= rpm_ctrl (var s'))
    /\ (senal_control_interna (var s') <= 0 ->
        rpm_ctrl (var s') <= rpm_ctrl (var s))
    /\ (senal_control_interna (var s') == 0 ->
        rpm_ctrl (var s') == rpm_ctrl (var s)).
Proof.
  intros Hs. pose proof (alcanzable_invariante s Hs) as Hi.
  destruct (actualizar_sistema_campos s p vn Hi)
    as (s' & salida & s1 & Hs' & _ & _ & _ & _ & _ & Hci & _ & Hrc & _).
  exists s'. split; [exact Hs'|].
  rewrite Hci, Hrc, (inv_par s Hi). cbn [dt parametros_iniciales].
  destruct (clip_incremento (rpm_ctrl (var s))
              (sc_control salida * ganancia_base (entrada_control s vn) * 0.1)
              4700 6300 (inv_rpm_ctrl s Hi)) as [Hpos Hneg].
  destruct (ganancia_base_valores (entrada_control s vn)) as [Eg | Eg];
    rewrite Eg in *; repeat split; intros H; lra.
Qed.

Lemma rpm_ctrl_sigue_al_control_witness :
  exists s',
    actualizar_sistema __init__ 0 (Some 80) = Ok s'
    /\ (0 <= senal_control_interna (var s') ->
        rpm_ctrl (var __init__) <= rpm_ctrl (var s'))
    /\ (senal_control_interna (var s') <= 0 ->
        rpm_ctrl (var s') <= rpm_ctrl (var __init__))
    /\ (senal_control_interna (var s') == 0 ->
        rpm_ctrl (var s') == rpm_ctrl (var __init__)).
Proof.
  apply (rpm_ctrl_sigue_al_control __init__ 0 (Some 80)).
  exists []. reflexivity.
Defined.

(** X26.  What a tick never touches, and what it copies: the parameters are
    those of the constructor, the target becomes the argument when there is
    one, whatever its value, and stays otherwise; the feedback is the new
    speed and [velocidad_anterior] the speed at the start of the tick; the
    logged [error_kmh] is the target minus the speed at the start of the
    tick. *)
Theorem contabilidad_del_tick
  (s : SistemaControlMotor) (p : Q) (vn : option Q) :
  alcanzable s ->
  exists s',
    actualizar_sistema s p vn = Ok s'
    /\ alcanzable s'
    /\ par s' = par s
    /\ velocidad_nominal (var s')
       = match vn with
         | Some v => v
         | None => velocidad_nominal (var s)
         end
    /\ retroalimentacion (var s') = velocidad_actual (var s')
    /\ velocidad_anterior (var s') = velocidad_actual (var s)
    /\ error_kmh (var s')
       = velocidad_nominal (var s') - velocidad_actual (var s).
Proof.
  intros Hs. pose proof (alcanzable_invariante s Hs) as Hi.
  destruct (actualizar_sistema_campos s p vn Hi)
    as (s' & salida & s1 & Hs' & Hi' & _ & Hn & _ & _ & _ & _ & _ & _ & _
        & Hretro & Hek & _).
  destruct (actualizar_sistema_memoria s p vn Hi) as (s2 & Hs2 & _ & Hvant).
  assert (s2 = s') by congruence. subst s2.
  exists s'. split; [exact Hs'|].
  split; [exact (alcanzable_paso s s' p vn Hs Hs')|].
  split; [rewrite (inv_par s' Hi'), (inv_par s Hi); reflexivity|].
  split; [exact Hn|]. split; [exact Hretro|]. split; [exact Hvant|].
  rewrite Hek, Hn. reflexivity.
Qed.

Lemma contabilidad_del_tick_witness :
  exists s',
    actualizar_sistema __init__ 0 (Some 130) = Ok s'
    /\ alcanzable s'
    /\ par s' = par __init__
    /\ velocidad_nominal (var s') = 130
    /\ retroalimentacion (var s') = velocidad_actual (var s')
    /\ velocidad_anterior (var s') = velocidad_actual (var __init__)
    /\ error_kmh (var s')
       = velocidad_nominal (var s') - velocidad_actual (var __init__).
Proof.
  apply (contabilidad_del_tick __init__ 0 (Some 130)).
  exists []. reflexivity.
Defined.

(** X27.  The shield of [log_valores], printed when
    [abs(accion_correctiva) > 2.0]: for a band in increasing order it
    appears exactly when the projected speed is more than 0.4 above the
    band or more than [0.2 + 1/3] below it. *)
Theorem correccion_marcada_sii (s : SistemaControlMotor) (tendencia_l : Q) :
  rango_offset_min (par s) <= rango_offset_max (par s) ->
  let proyectada := velocidad_actual (var s) + tendencia_l * dt (par s) in
  correccion_marcada (accion_correctiva_de s tendencia_l) = true
  <-> (snd (get_rango_objetivo s) + 0.4 < proyectada
       \/ proyectada < fst (get_rango_objetivo s) - 0.2 - (1 # 3)).
Proof.
  intros Hoff. cbv zeta.
  unfold correccion_marcada. rewrite Qgtb_gt.
  unfold accion_correctiva_de. cbn [get_rango_objetivo fst snd].
  set (vp := velocidad_actual (var s) + tendencia_l * dt (par s)).
  set (n := velocidad_nominal (var s)).
  destruct (Qgtb vp (n + rango_offset_max (par s) + 0.3)) eqn:Ea.
  - apply Qgtb_gt in Ea.
    rewrite Qabs_neg by lra.
    split; [intros H; left; lra | intros [H | H]; lra].
  - apply Qgtb_le in Ea.
    destruct (Qltb vp (n + rango_offset_min (par s) - 0.3)) eqn:Eb.
    + apply Qltb_lt in Eb.
      rewrite Qabs_pos by lra.
      split; [intros H; right; lra | intros [H | H]; lra].
    + apply Qltb_ge in Eb.
      change (Qabs 0) with 0.
      split; [intros H; lra | intros [H | H]; lra].
Qed.

Lemma correccion_marcada_sii_witness :
  correccion_marcada (accion_correctiva_de __init__ 0) = true
  <-> (snd (get_rango_objetivo __init__) + 0.4
       < velocidad_actual (var __init__) + 0 * dt (par __init__)
       \/ velocidad_actual (var __init__) + 0 * dt (par __init__)
          < fst (get_rango_objetivo __init__) - 0.2 - (1 # 3)).
Proof.
  apply (correccion_marcada_sii __init__ 0).
  discriminate.
Defined.
